(** * Coolify resource correlation and filtering engine

    A shallow embedding of the pure functions of the [coolify-ops]
    extension (identifier normalisation, environment lookup maps, response
    shape normalisation, selector filters and URL builders), and the
    properties its specification states about them.

    Conventions of the embedding.
    - A JavaScript string is a [string]: a sequence of code units, each
      below 256.  White space is therefore the part of the ECMAScript
      [WhiteSpace] and [LineTerminator] classes that lies in that range.
    - A JavaScript number used as an identifier is an integer [Z]; its
      [String()] is its decimal representation.
    - An optional field of type [string] is an [option string], where [None]
      stands for an absent ([undefined] or [null]) field.  A field of type
      [number | string] is an [idval], which keeps [undefined] and [null]
      apart.
    - [Map<string, V>] is a [gmap string V] and [Set<string>] is a
      [gset string]: only [get], [has], [set] and [add] are used by the
      functions embedded here, so maps are compared by content. *)

From Stdlib Require Import ZArith String Ascii List Bool Lia Permutation.
From stdpp Require Import base option list strings pretty gmap.

Open Scope string_scope.

(** ** JavaScript primitives used by the extension *)

Module JS.

(** [number | string | undefined | null] *)
Inductive idval : Type :=
| Undefined
| Null
| Num (n : Z)
| Str (s : string).

(** [String(value)] *)
Definition String_ (v : idval) : string :=
  match v with
  | Undefined => "undefined"
  | Null => "null"
  | Num n => pretty n
  | Str s => s
  end.

(** [value === undefined || value === null] *)
Definition nullish (v : idval) : bool :=
  match v with
  | Undefined | Null => true
  | _ => false
  end.

(** [a ?? b] *)
Definition coalesce (a b : idval) : idval :=
  if nullish a then b else a.

(** An optional string seen as a value. *)
Definition of_str (o : option string) : idval :=
  match o with
  | Some s => Str s
  | None => Undefined
  end.

(** Truthiness of an optional string: absent and empty are falsy. *)
Definition truthy (o : option string) : bool :=
  match o with
  | Some s => negb (String.eqb s "")
  | None => false
  end.

(** Code units that [trim] and the regular expression class [\s] treat
    as white space: TAB, LF, VT, FF, CR, SP and NBSP. *)
Definition isWhiteSpace (c : ascii) : bool :=
  let n := nat_of_ascii c in
  (Nat.leb 9 n && Nat.leb n 13) || Nat.eqb n 32 || Nat.eqb n 160.

Fixpoint trimStart (s : string) : string :=
  match s with
  | String c rest => if isWhiteSpace c then trimStart rest else s
  | EmptyString => EmptyString
  end.

Fixpoint trimEnd (s : string) : string :=
  match s with
  | String c rest =>
      match trimEnd rest with
      | EmptyString => if isWhiteSpace c then EmptyString else String c EmptyString
      | kept => String c kept
      end
  | EmptyString => EmptyString
  end.

(** [s.trim()] *)
Definition trim (s : string) : string := trimEnd (trimStart s).

(** [s.startsWith(p)] *)
Definition startsWith (s p : string) : bool := String.prefix p s.

Fixpoint dropString (n : nat) (s : string) : string :=
  match n, s with
  | S m, String _ rest => dropString m rest
  | _, _ => s
  end.

(** [s.replace(pat, repl)] for a string pattern: the first occurrence of
    [pat], scanning from the left, is replaced.  (The replacement strings
    of the extension contain no [$] pattern.) *)
Fixpoint replace (pat repl s : string) : string :=
  if String.prefix pat s then repl +:+ dropString (String.length pat) s
  else match s with
       | String c rest => String c (replace pat repl rest)
       | EmptyString => EmptyString
       end.

Fixpoint allChars (p : ascii -> bool) (s : string) : bool :=
  match s with
  | String c rest => p c && allChars p rest
  | EmptyString => true
  end.

Definition isSlash (c : ascii) : bool := Ascii.eqb c "/"%char.

(** [s.replace(/\/+$/, "")]: the leftmost position from which the rest of
    the string is a non-empty run of slashes is where the match starts;
    the match is removed. *)
Fixpoint stripTrailingSlashes (s : string) : string :=
  match s with
  | String c rest =>
      if allChars isSlash s then EmptyString
      else String c (stripTrailingSlashes rest)
  | EmptyString => EmptyString
  end.

(** [s.replace(re, "_")] for a global regular expression [re = C+] over a
    character class [C]: every maximal run of characters of the class
    becomes one underscore.  [inRun] tells that the previous character
    belongs to the run being replaced. *)
Fixpoint collapseFrom (p : ascii -> bool) (inRun : bool) (s : string) : string :=
  match s with
  | String c rest =>
      if p c then
        if inRun then collapseFrom p true rest
        else String "_"%char (collapseFrom p true rest)
      else String c (collapseFrom p false rest)
  | EmptyString => EmptyString
  end.

Definition collapseRuns (p : ascii -> bool) (s : string) : string :=
  collapseFrom p false s.

Definition isHyphen (c : ascii) : bool := Ascii.eqb c "-"%char.

(** [toLowerCase] on one code unit: A-Z and the Latin-1 capitals
    (U+00C0 to U+00DE, except the multiplication sign U+00D7). *)
Definition lowerChar (c : ascii) : ascii :=
  let n := nat_of_ascii c in
  if (Nat.leb 65 n && Nat.leb n 90)
     || (Nat.leb 192 n && Nat.leb n 222 && negb (Nat.eqb n 215))
  then ascii_of_nat (n + 32) else c.

Fixpoint toLowerCase (s : string) : string :=
  match s with
  | String c rest => String (lowerChar c) (toLowerCase rest)
  | EmptyString => EmptyString
  end.

(** [s.split(sep)] for a separator of one character. *)
Fixpoint split (sep : ascii) (s : string) : list string :=
  match s with
  | String c rest =>
      if Ascii.eqb c sep then EmptyString :: split sep rest
      else match split sep rest with
           | tok :: toks => String c tok :: toks
           | [] => [String c EmptyString]
           end
  | EmptyString => [EmptyString]
  end.

(** [if (key) body(key) else otherwise], for an optional string [key]. *)
Definition whenTruthy {A : Type} (key : option string)
    (body : string -> A) (otherwise : A) : A :=
  match key with
  | Some k => if String.eqb k "" then otherwise else body k
  | None => otherwise
  end.

(** An optional string inside a template literal. *)
Definition interp (o : option string) : string := String_ (of_str o).

(** *** Deserialised JSON

    A response of type [unknown] is what [JSON.parse] returns, or
    [undefined].  Objects are finite maps from property names to values. *)
#[warnings="-register-all"] Inductive jsval : Type :=
| JUndefined
| JNull
| JBool (b : bool)
| JNum (n : Z)
| JStr (s : string)
| JArr (items : list jsval)
| JObj (props : gmap string jsval).

Definition isArray (v : jsval) : bool :=
  match v with
  | JArr _ => true
  | _ => false
  end.

(** The elements of [v as T[]]. *)
Definition elements (v : jsval) : list jsval :=
  match v with
  | JArr items => items
  | _ => []
  end.

(** [typeof v === "object"] *)
Definition typeofObject (v : jsval) : bool :=
  match v with
  | JNull | JArr _ | JObj _ => true
  | _ => false
  end.

(** Truthiness of a value. *)
Definition toBoolean (v : jsval) : bool :=
  match v with
  | JUndefined | JNull => false
  | JBool b => b
  | JNum n => negb (Z.eqb n 0)
  | JStr s => negb (String.eqb s "")
  | JArr _ | JObj _ => true
  end.

(** Reading a property throws a [TypeError] on [undefined] and [null];
    on an object it yields the property or [undefined]; arrays and
    primitives have none of the properties the extension reads. *)
Inductive exn : Type :=
| TypeError.

Definition getProp (v : jsval) (key : string) : exn + jsval :=
  match v with
  | JUndefined | JNull => inl TypeError
  | JObj props => inr (default JUndefined (props !! key))
  | _ => inr JUndefined
  end.

Definition bind {A B : Type} (c : exn + A) (k : A -> exn + B) : exn + B :=
  match c with
  | inl e => inl e
  | inr a => k a
  end.

(** *** Further string and list primitives *)

Fixpoint takeString (n : nat) (s : string) : string :=
  match n, s with
  | S m, String c rest => String c (takeString m rest)
  | _, _ => EmptyString
  end.

(** [s.endsWith(suffix)] *)
Definition endsWith (s suffix : string) : bool :=
  Nat.leb (String.length suffix) (String.length s)
  && String.eqb (dropString (String.length s - String.length suffix) s) suffix.

(** [s.replace(re, repl)] for a regular expression [re] that is a literal
    anchored at the end of the string: the only place where it can match is
    the suffix of its length. *)
Definition replaceAtEnd (pat repl s : string) : string :=
  if endsWith s pat
  then takeString (String.length s - String.length pat) s +:+ repl
  else s.

(** [s.includes(sub)] *)
Fixpoint includes (s sub : string) : bool :=
  if String.prefix sub s then true
  else match s with
       | String _ rest => includes rest sub
       | EmptyString => false
       end.

(** [parts.join(sep)] *)
Fixpoint join (sep : string) (parts : list string) : string :=
  match parts with
  | [] => EmptyString
  | [part] => part
  | part :: rest => part +:+ sep +:+ join sep rest
  end.

(** [values.filter(Boolean)] on optional strings: the absent and the empty
    ones are dropped. *)
Fixpoint filterBoolean (values : list (option string)) : list string :=
  match values with
  | [] => []
  | Some s :: rest =>
      if String.eqb s "" then filterBoolean rest else s :: filterBoolean rest
  | None :: rest => filterBoolean rest
  end.

(** Truthiness of a [number | string | undefined | null]. *)
Definition truthyId (v : idval) : bool :=
  match v with
  | Undefined | Null => false
  | Num n => negb (Z.eqb n 0)
  | Str s => negb (String.eqb s "")
  end.

End JS.

Notation "a ?? b" := (JS.coalesce a b) (at level 60, right associativity).

(** ** [api/filters]: identifier normalisation and environment lookups *)

Module Environment.
Record t : Type := mk {
  id : JS.idval;
  uuid : option string;
  name : option string;
  project_id : JS.idval;
  project_uuid : option string;
}.
End Environment.

Module Project.
Record t : Type := mk {
  id : JS.idval;
  uuid : option string;
  name : option string;
  environments : option (list Environment.t);
}.
End Project.

(** [Environment & { projectId?, projectName?, projectUuid? }] *)
Module ProjectEnvironment.
Record t : Type := mk {
  id : JS.idval;
  uuid : option string;
  name : option string;
  project_id : JS.idval;
  project_uuid : option string;
  projectId : option string;
  projectName : option string;
  projectUuid : option string;
}.
End ProjectEnvironment.

Module Filters.
Import JS.

Definition toId (value : idval) : option string :=
  if nullish value then None
  else
    let text := trim (String_ value) in
    if Nat.ltb 0 (String.length text) then Some text else None.

(** [a ?? b] where [a] is [string | null] and [b] is [string | undefined]. *)
Definition orElse (a b : option string) : option string :=
  match a with
  | Some _ => a
  | None => b
  end.

Definition flattenEnvironments (projects : list Project.t)
  : list ProjectEnvironment.t :=
  foldl
    (fun (items : list ProjectEnvironment.t) project =>
       let projectId := toId (Project.id project ?? of_str (Project.uuid project)) in
       let projectUuid :=
         if truthy (Project.uuid project) then Project.uuid project else None in
       let projectName := default "Unnamed Project" (Project.name project) in
       foldl
         (fun (items : list ProjectEnvironment.t) environment =>
            app items
            [ {| ProjectEnvironment.id := Environment.id environment;
                 ProjectEnvironment.uuid := Environment.uuid environment;
                 ProjectEnvironment.name := Environment.name environment;
                 ProjectEnvironment.project_id := Environment.project_id environment;
                 ProjectEnvironment.project_uuid := Environment.project_uuid environment;
                 ProjectEnvironment.projectId :=
                   orElse projectId
                     (orElse
                        (toId (Environment.project_id environment
                               ?? of_str (Environment.project_uuid environment)))
                        None);
                 ProjectEnvironment.projectName := Some projectName;
                 ProjectEnvironment.projectUuid := projectUuid |} ])
         items
         (default [] (Project.environments project)))
    [] projects.

(** [if (key) map.set(key, v)] *)
Definition setIf {V : Type} (key : option string) (v : V)
    (map : gmap string V) : gmap string V :=
  whenTruthy key (fun k => <[k := v]> map) map.

(** [if (key) set.add(key)] *)
Definition addIf (key : option string) (set : gset string) : gset string :=
  whenTruthy key (fun k => {[k]} ∪ set) set.

Definition buildEnvToProjectMap (envs : list ProjectEnvironment.t)
  : gmap string string :=
  foldl
    (fun map env =>
       whenTruthy
         (toId (of_str (ProjectEnvironment.projectId env)
                ?? of_str (ProjectEnvironment.project_uuid env)
                ?? ProjectEnvironment.project_id env))
         (fun projectId =>
            let envId := toId (ProjectEnvironment.id env) in
            let envUuid := toId (of_str (ProjectEnvironment.uuid env)) in
            setIf envUuid projectId (setIf envId projectId map))
         map)
    ∅ envs.

Definition buildEnvNameMap (envs : list ProjectEnvironment.t)
  : gmap string string :=
  foldl
    (fun map env =>
       let name := default "Unnamed Environment" (ProjectEnvironment.name env) in
       let envId := toId (ProjectEnvironment.id env) in
       let envUuid := toId (of_str (ProjectEnvironment.uuid env)) in
       setIf envUuid name (setIf envId name map))
    ∅ envs.

Definition buildEnvLookup (envs : list ProjectEnvironment.t)
  : gmap string ProjectEnvironment.t :=
  foldl
    (fun map env =>
       let envId := toId (ProjectEnvironment.id env) in
       let envUuid := toId (of_str (ProjectEnvironment.uuid env)) in
       setIf envUuid env (setIf envId env map))
    ∅ envs.

(** The set fetched from the map is updated in place; it is stored again
    under [name] unless it is empty, and only an empty set can be one that
    the map does not hold yet. *)
Definition buildEnvNameToIdsMap (envs : list ProjectEnvironment.t)
  : gmap string (gset string) :=
  foldl
    (fun map env =>
       let name := default "Unnamed Environment" (ProjectEnvironment.name env) in
       let set := default ∅ (map !! name) in
       let envId := toId (ProjectEnvironment.id env) in
       let envUuid := toId (of_str (ProjectEnvironment.uuid env)) in
       let set := addIf envUuid (addIf envId set) in
       if Nat.eqb (size set) 0 then map else <[name := set]> map)
    ∅ envs.

End Filters.

Notation "x <~ c ; k" := (JS.bind c (fun x => k))
(at level 100, c at next level, right associativity).

(** ** [api/client]: base URL, instance URL and the environments of projects *)

Module Client.
Import JS.

Definition DEFAULT_BASE_URL : string := "https://app.coolify.io/api/v1".

Definition normalizeBaseUrl (input : string) : string :=
  let trimmed := stripTrailingSlashes (trim input) in
  if String.eqb trimmed "" then DEFAULT_BASE_URL
  else if endsWith trimmed "/api/v1" then trimmed
  else trimmed +:+ "/api/v1".

Definition getInstanceUrl (baseUrl : string) : string :=
  replaceAtEnd "/api/v1" "" baseUrl.

(** The environment of a response, tagged with the project it was asked
    for.  The response object is spread whole, so that the reference fields
    it may carry are kept. *)
Definition tagged (project : Project.t) (env : Environment.t)
  : ProjectEnvironment.t :=
  {| ProjectEnvironment.id := Environment.id env;
     ProjectEnvironment.uuid := Environment.uuid env;
     ProjectEnvironment.name := Environment.name env;
     ProjectEnvironment.project_id := Environment.project_id env;
     ProjectEnvironment.project_uuid := Environment.project_uuid env;
     ProjectEnvironment.projectId :=
       if truthyId (Project.id project) then Some (String_ (Project.id project))
       else Project.uuid project;
     ProjectEnvironment.projectName :=
       Some (default "Unnamed Project" (Project.name project));
     ProjectEnvironment.projectUuid := Project.uuid project |}.

(** [Promise.all]: the results in the order of the promises, or a rejection
    as soon as one promise is rejected.  A promise is the value it settles
    to, [None] for a rejection. *)
Fixpoint promiseAll {A : Type} (promises : list (option A)) : option (list A) :=
  match promises with
  | [] => Some []
  | Some a :: rest =>
      match promiseAll rest with
      | Some results => Some (a :: results)
      | None => None
      end
  | None :: _ => None
  end.

(** [requestJson] is the answer of the server to a [GET] of a path: the
    environments it lists, or [None] when the request fails. *)
Definition fetchProjectEnvironments
    (requestJson : string -> option (list Environment.t))
    (projects : list Project.t) : option (list ProjectEnvironment.t) :=
  let requests :=
    flat_map
      (fun project =>
         let projectUuid := default "" (Project.uuid project) in
         if String.eqb projectUuid "" then []
         else
           [ match requestJson ("/projects/" +:+ projectUuid +:+ "/environments") with
             | Some envs => Some (map (tagged project) envs)
             | None => None
             end ])
      projects in
  if Nat.eqb (length requests) 0 then Some []
  else
    match promiseAll requests with
    | Some results => Some (concat results)
    | None => None
    end.

End Client.

(** ** [lib/resources]: the unified resource model *)

Module Application.
Record t : Type := mk {
  id : JS.idval;
  uuid : option string;
  name : option string;
  fqdn : option string;
  git_repository : option string;
  git_branch : option string;
  environment_id : JS.idval;
  environment_uuid : option string;
  status : option string;
  deployment_status : option string;
  last_deployment_status : option string;
}.
End Application.

Module Service.
Record t : Type := mk {
  id : JS.idval;
  uuid : option string;
  name : option string;
  description : option string;
  environment_id : JS.idval;
  environment_uuid : option string;
  service_type : option string;
}.
End Service.

Module Database.
Record t : Type := mk {
  id : JS.idval;
  uuid : option string;
  name : option string;
  description : option string;
  environment_id : JS.idval;
  environment_uuid : option string;
  db_type : option string;
}.
End Database.

Module ResourceType.
Inductive t : Type :=
| application
| service
| database.

(** The string that the tag is at run time. *)
Definition tag (ty : t) : string :=
  match ty with
  | application => "application"
  | service => "service"
  | database => "database"
  end.
End ResourceType.

Module ResourceItem.
Record t : Type := mk {
  id : string;
  uuid : option string;
  type : ResourceType.t;
  name : string;
  subtitle : option string;
  environmentId : option string;
  repo : option string;
  kind : option string;
  url : option string;
  status : option string;
}.
End ResourceItem.

Module Resources.
Import JS.

Definition getPrimaryUrl (app : Application.t) : option string :=
  if negb (truthy (Application.fqdn app)) then None
  else
    let raw := trim <$> head (split ","%char (interp (Application.fqdn app))) in
    whenTruthy raw
      (fun raw =>
         if startsWith raw "http://" || startsWith raw "https://" then Some raw
         else Some ("https://" +:+ raw))
      None.

(** The separator of the subtitle, [" • "], holds the bullet U+2022, which
    lies outside the code units of this embedding; it stands here as its
    UTF-8 bytes.  No function looks into it. *)
Definition applicationItem (app : Application.t) : ResourceItem.t :=
  {| ResourceItem.id :=
       String_ (Application.id app ?? of_str (Application.uuid app)
                ?? of_str (Application.name app) ?? Str "app");
     ResourceItem.uuid :=
       if truthy (Application.uuid app) then Application.uuid app else None;
     ResourceItem.type := ResourceType.application;
     ResourceItem.name := default "Unnamed Application" (Application.name app);
     ResourceItem.subtitle :=
       Some (join " • " (filterBoolean [Application.git_branch app; getPrimaryUrl app]));
     ResourceItem.environmentId :=
       Some (String_ (Application.environment_id app
                      ?? of_str (Application.environment_uuid app) ?? Str ""));
     ResourceItem.repo := Application.git_repository app;
     ResourceItem.kind := None;
     ResourceItem.url := getPrimaryUrl app;
     ResourceItem.status :=
       Filters.orElse (Application.status app)
         (Filters.orElse (Application.deployment_status app)
            (Application.last_deployment_status app)) |}.

Definition serviceItem (service : Service.t) : ResourceItem.t :=
  {| ResourceItem.id :=
       String_ (Service.id service ?? of_str (Service.uuid service)
                ?? of_str (Service.name service) ?? Str "service");
     ResourceItem.uuid :=
       if truthy (Service.uuid service) then Service.uuid service else None;
     ResourceItem.type := ResourceType.service;
     ResourceItem.name := default "Unnamed Service" (Service.name service);
     ResourceItem.subtitle := Service.description service;
     ResourceItem.environmentId :=
       Some (String_ (Service.environment_id service
                      ?? of_str (Service.environment_uuid service) ?? Str ""));
     ResourceItem.repo := None;
     ResourceItem.kind := Service.service_type service;
     ResourceItem.url := None;
     ResourceItem.status := None |}.

Definition databaseItem (database : Database.t) : ResourceItem.t :=
  {| ResourceItem.id :=
       String_ (Database.id database ?? of_str (Database.uuid database)
                ?? of_str (Database.name database) ?? Str "db");
     ResourceItem.uuid :=
       if truthy (Database.uuid database) then Database.uuid database else None;
     ResourceItem.type := ResourceType.database;
     ResourceItem.name := default "Unnamed Database" (Database.name database);
     ResourceItem.subtitle := Database.description database;
     ResourceItem.environmentId :=
       Some (String_ (Database.environment_id database
                      ?? of_str (Database.environment_uuid database) ?? Str ""));
     ResourceItem.repo := None;
     ResourceItem.kind := Database.db_type database;
     ResourceItem.url := None;
     ResourceItem.status := None |}.

Definition buildResources (apps : list Application.t)
    (services : list Service.t) (databases : list Database.t)
  : list ResourceItem.t :=
  let appItems := map applicationItem apps in
  let serviceItems := map serviceItem services in
  let databaseItems := map databaseItem databases in
  (appItems ++ serviceItems ++ databaseItems)%list.

End Resources.

(** ** [search-resources]: the unified list *)

Module SearchResources.
Import JS.

Definition applyFilter (items : list ResourceItem.t) (filterValue : string)
    (envToProjectMap : gmap string string)
    (envNameToIds : gmap string (gset string)) : list ResourceItem.t :=
  if String.eqb filterValue "all" then items
  else if startsWith filterValue "project:" then
    let projectId := replace "project:" "" filterValue in
    List.filter
      (fun item =>
         let envId := default "" (ResourceItem.environmentId item) in
         bool_decide (envToProjectMap !! envId = Some projectId))
      items
  else if startsWith filterValue "env:" then
    let envName := replace "env:" "" filterValue in
    match envNameToIds !! envName with
    | None => []
    | Some envIds =>
        List.filter
          (fun item =>
             bool_decide (default "" (ResourceItem.environmentId item) ∈ envIds))
          items
    end
  else if startsWith filterValue "type:" then
    let type := replace "type:" "" filterValue in
    List.filter
      (fun item => String.eqb (ResourceType.tag (ResourceItem.type item)) type)
      items
  else items.

Definition resolveResourceUrl (instanceUrl : string)
    (projectUuid environmentUuid resourceUuid : option string)
    (type : ResourceType.t) : option string :=
  if negb (truthy projectUuid) || negb (truthy environmentUuid)
     || negb (truthy resourceUuid)
  then None
  else
    let base := stripTrailingSlashes instanceUrl in
    Some (base +:+ "/project/" +:+ interp projectUuid
          +:+ "/environment/" +:+ interp environmentUuid
          +:+ "/" +:+ ResourceType.tag type
          +:+ "/" +:+ interp resourceUuid).

(** The memo [filteredResources]: the selector, then the search text. *)
Definition filteredResources (resources : list ResourceItem.t)
    (filterValue searchText : string)
    (envToProjectMap : gmap string string)
    (envNameToIds : gmap string (gset string)) : list ResourceItem.t :=
  let lower := toLowerCase (trim searchText) in
  let withFilter := applyFilter resources filterValue envToProjectMap envNameToIds in
  if String.eqb lower "" then withFilter
  else
    List.filter
      (fun item =>
         let haystack :=
           toLowerCase
             (join " "
                (filterBoolean
                   [ Some (ResourceItem.name item); ResourceItem.subtitle item;
                     ResourceItem.repo item; ResourceItem.kind item;
                     Some (ResourceType.tag (ResourceItem.type item)) ])) in
         includes haystack lower)
      withFilter.

End SearchResources.

(** The entries and the groups of the memo [groupedResources] of
    [search-resources].  Between the two the entries are sorted with
    [localeCompare], which is not embedded: the grouping loop is a function
    of the entries in whatever order they come. *)
Module ResourceEntry.
Record t : Type := mk {
  item : ResourceItem.t;
  projectName : string;
  envName : string;
}.
End ResourceEntry.

Module ResourceGroup.
Record t : Type := mk {
  projectName : string;
  items : list ResourceEntry.t;
}.
End ResourceGroup.

Module Grouping.
Import JS.

Definition entries (filteredResources : list ResourceItem.t)
    (envLookup : gmap string ProjectEnvironment.t)
    (envNameMap : gmap string string) : list ResourceEntry.t :=
  map
    (fun item =>
       let envId := default "" (ResourceItem.environmentId item) in
       let envInfo := envLookup !! envId in
       let projectName :=
         default "Unassigned" (envInfo ≫= ProjectEnvironment.projectName) in
       let envName := default "Unknown" (envNameMap !! envId) in
       {| ResourceEntry.item := item;
          ResourceEntry.projectName := projectName;
          ResourceEntry.envName := envName |})
    filteredResources.

(** A [Map] whose values are read in insertion order is a list of
    bindings. *)
Definition has (key : string) (groups : list (string * ResourceGroup.t)) : bool :=
  existsb (fun binding => String.eqb (fst binding) key) groups.

(** [groups.get(key)?.items.push(entry)]: the group bound to [key] is
    updated in place. *)
Fixpoint pushTo (key : string) (entry : ResourceEntry.t)
    (groups : list (string * ResourceGroup.t)) : list (string * ResourceGroup.t) :=
  match groups with
  | [] => []
  | (k, group) :: rest =>
      if String.eqb k key then
        (k, {| ResourceGroup.projectName := ResourceGroup.projectName group;
               ResourceGroup.items :=
                 (ResourceGroup.items group ++ [entry])%list |}) :: rest
      else (k, group) :: pushTo key entry rest
  end.

Definition groups (entries : list ResourceEntry.t) : list ResourceGroup.t :=
  let groups :=
    foldl
      (fun groups entry =>
         let key := ResourceEntry.projectName entry in
         let groups :=
           if negb (has key groups) then
             (groups ++ [(key, {| ResourceGroup.projectName :=
                                    ResourceEntry.projectName entry;
                                  ResourceGroup.items := [] |})])%list
           else groups in
         pushTo key entry groups)
      [] entries in
  map snd groups.

End Grouping.

(** ** [search-applications], [search-services], [search-databases] *)

Module SearchApplications.
Import JS.

(** The same function as in [lib/resources], declared a second time. *)
Definition getPrimaryUrl (app : Application.t) : option string :=
  if negb (truthy (Application.fqdn app)) then None
  else
    let raw := trim <$> head (split ","%char (interp (Application.fqdn app))) in
    whenTruthy raw
      (fun raw =>
         if startsWith raw "http://" || startsWith raw "https://" then Some raw
         else Some ("https://" +:+ raw))
      None.

Definition applyFilter (items : list Application.t) (filterValue : string)
    (envToProjectMap : gmap string string) (hasEnvMapping : bool)
    (envNameToIds : gmap string (gset string)) : list Application.t :=
  if String.eqb filterValue "all" then items
  else if startsWith filterValue "env:" then
    let envName := replace "env:" "" filterValue in
    match envNameToIds !! envName with
    | None => []
    | Some envIds =>
        List.filter
          (fun item =>
             bool_decide
               (String_ (Application.environment_id item ?? Str "") ∈ envIds))
          items
    end
  else if startsWith filterValue "project:" then
    if negb hasEnvMapping then items
    else
      let projectId := replace "project:" "" filterValue in
      List.filter
        (fun item =>
           let envId := String_ (Application.environment_id item ?? Str "") in
           bool_decide (envToProjectMap !! envId = Some projectId))
        items
  else items.

End SearchApplications.

Module SearchServices.
Import JS.

Definition applyFilter (items : list Service.t) (filterValue : string)
    (envToProjectMap : gmap string string)
    (envNameToIds : gmap string (gset string)) : list Service.t :=
  if String.eqb filterValue "all" then items
  else if startsWith filterValue "env:" then
    let envName := replace "env:" "" filterValue in
    match envNameToIds !! envName with
    | None => []
    | Some envIds =>
        List.filter
          (fun item =>
             bool_decide
               (String_ (Service.environment_id item ?? Str "") ∈ envIds))
          items
    end
  else if startsWith filterValue "project:" then
    let projectId := replace "project:" "" filterValue in
    List.filter
      (fun item =>
         let envId := String_ (Service.environment_id item ?? Str "") in
         bool_decide (envToProjectMap !! envId = Some projectId))
      items
  else items.

End SearchServices.

Module SearchDatabases.
Import JS.

Definition applyFilter (items : list Database.t) (filterValue : string)
    (envToProjectMap : gmap string string)
    (envNameToIds : gmap string (gset string)) : list Database.t :=
  if String.eqb filterValue "all" then items
  else if startsWith filterValue "env:" then
    let envName := replace "env:" "" filterValue in
    match envNameToIds !! envName with
    | None => []
    | Some envIds =>
        List.filter
          (fun item =>
             bool_decide
               (String_ (Database.environment_id item ?? Str "") ∈ envIds))
          items
    end
  else if startsWith filterValue "project:" then
    let projectId := replace "project:" "" filterValue in
    List.filter
      (fun item =>
         let envId := String_ (Database.environment_id item ?? Str "") in
         bool_decide (envToProjectMap !! envId = Some projectId))
      items
  else items.

End SearchDatabases.

(** ** [search-deployments]: deployments and their response shapes *)

Module Deployment.
(** The field [logs], of type [unknown], is read by none of the functions
    embedded here and is left out. *)
Record t : Type := mk {
  id : JS.idval;
  deployment_uuid : option string;
  status : option string;
  application_id : JS.idval;
  application_uuid : option string;
  application_name : option string;
  name : option string;
  deployment_url : option string;
  commit_message : option string;
  commit : option string;
  created_at : option string;
  updated_at : option string;
  source_app_uuid : option string;
  environment_id : JS.idval;
  environment_uuid : option string;
  server_name : option string;
  git_type : option string;
  git_repository : option string;
  repo_url : option string;
  pull_request_url : option string;
  pull_request_id : JS.idval;
}.
End Deployment.

Module SearchDeployments.
Import JS.

Definition ACTIVE_STATUSES : gset string :=
  list_to_set ["running"; "queued"; "pending"; "in_progress"; "deploying"; "building"].

Definition normalizeStatus (status : option string) : string :=
  collapseRuns isHyphen
    (collapseRuns isWhiteSpace (toLowerCase (default "" status))).

Definition normalizeList (response : jsval) : exn + list jsval :=
  if isArray response then inr (elements response)
  else if negb (toBoolean response) || negb (typeofObject response) then inr []
  else
    let record := response in
    rows <~ getProp record "rows";
    if isArray rows then inr (elements rows)
    else
      data <~ getProp record "data";
      if isArray data then inr (elements data)
      else
        deployments <~ getProp record "deployments";
        if isArray deployments then inr (elements deployments)
        else if toBoolean data && typeofObject data then
          let nested := data in
          nestedRows <~ getProp nested "rows";
          if isArray nestedRows then inr (elements nestedRows)
          else
            nestedData <~ getProp nested "data";
            if isArray nestedData then inr (elements nestedData)
            else inr []
        else inr [].

Definition buildCoolifyDeploymentUrl (instanceUrl : string)
    (projectUuid environmentUuid applicationUuid deploymentUuid : option string)
  : option string :=
  if negb (truthy projectUuid) || negb (truthy environmentUuid)
     || negb (truthy applicationUuid) || negb (truthy deploymentUuid)
  then None
  else
    let base := stripTrailingSlashes instanceUrl in
    Some (base +:+ "/project/" +:+ interp projectUuid
          +:+ "/environment/" +:+ interp environmentUuid
          +:+ "/application/" +:+ interp applicationUuid
          +:+ "/deployment/" +:+ interp deploymentUuid).

Definition buildCoolifyLogsUrl (instanceUrl : string)
    (projectUuid environmentUuid applicationUuid : option string)
  : option string :=
  if negb (truthy projectUuid) || negb (truthy environmentUuid)
     || negb (truthy applicationUuid)
  then None
  else
    let base := stripTrailingSlashes instanceUrl in
    Some (base +:+ "/project/" +:+ interp projectUuid
          +:+ "/environment/" +:+ interp environmentUuid
          +:+ "/application/" +:+ interp applicationUuid
          +:+ "/logs").

Definition resolveEnvId (deployment : Deployment.t)
    (appIdToEnvId : gmap string string) (appKey : string) : string :=
  let fromMap := appIdToEnvId !! appKey in
  whenTruthy fromMap (fun fromMap => fromMap)
    (let direct :=
       Filters.toId (Deployment.environment_id deployment
                     ?? of_str (Deployment.environment_uuid deployment)) in
     default "" direct).

Definition resolveAppKey (deployment : Deployment.t) : string :=
  String_ (of_str (Deployment.source_app_uuid deployment)
           ?? of_str (Deployment.application_uuid deployment)
           ?? Deployment.application_id deployment
           ?? Str "").

Definition applyFilter (items : list Deployment.t) (filterValue : string)
    (envToProjectMap : gmap string string)
    (envNameToIds : gmap string (gset string))
    (appIdToEnvId : gmap string string) : list Deployment.t :=
  if String.eqb filterValue "all" then items
  else if String.eqb filterValue "status:active" then
    List.filter
      (fun item =>
         bool_decide (normalizeStatus (Deployment.status item) ∈ ACTIVE_STATUSES))
      items
  else if startsWith filterValue "project:" then
    let projectId := replace "project:" "" filterValue in
    List.filter
      (fun item =>
         let appKey := resolveAppKey item in
         let envId := resolveEnvId item appIdToEnvId appKey in
         bool_decide (envToProjectMap !! envId = Some projectId))
      items
  else if startsWith filterValue "env:" then
    let envName := replace "env:" "" filterValue in
    match envNameToIds !! envName with
    | None => []
    | Some envIds =>
        List.filter
          (fun item =>
             let appKey := resolveAppKey item in
             let envId := resolveEnvId item appIdToEnvId appKey in
             bool_decide (envId ∈ envIds))
          items
    end
  else items.

(** The colours of [@raycast/api] that the extension uses. *)
Inductive Color : Type :=
| Green
| Blue
| Yellow
| Orange
| Red
| SecondaryText.

Inductive Icon : Type :=
| Dot.

Record Tinted : Type := mkTinted {
  source : Icon;
  tintColor : Color;
}.

Definition statusIcon (status : option string) : Tinted :=
  let value := normalizeStatus status in
  if String.eqb value "running" then {| source := Dot; tintColor := Green |}
  else if String.eqb value "in_progress" || String.eqb value "deploying"
          || String.eqb value "building"
  then {| source := Dot; tintColor := Blue |}
  else if String.eqb value "queued" || String.eqb value "pending"
  then {| source := Dot; tintColor := Yellow |}
  else if String.eqb value "finished" || String.eqb value "success"
  then {| source := Dot; tintColor := Green |}
  else if String.eqb value "failed" then {| source := Dot; tintColor := Red |}
  else {| source := Dot; tintColor := SecondaryText |}.

Definition normalizeUrl (url : option string) : option string :=
  whenTruthy url
    (fun url =>
       if startsWith url "http://" || startsWith url "https://" then Some url
       else Some ("https://" +:+ url))
    None.

Definition resolveDeployUrl (url : option string) (instanceUrl : string)
  : option string :=
  whenTruthy url
    (fun url =>
       if startsWith url "http://" || startsWith url "https://" then Some url
       else
         let base := stripTrailingSlashes instanceUrl in
         if startsWith url "/" then Some (base +:+ url)
         else if startsWith url "project/" then Some (base +:+ "/" +:+ url)
         else normalizeUrl (Some url))
    None.

Definition resolveLogsUrl (value : jsval) (instanceUrl : string) : option string :=
  match value with
  | JStr value =>
      let trimmed := trim value in
      if String.eqb trimmed "" then None
      else resolveDeployUrl (Some trimmed) instanceUrl
  | _ => None
  end.

(** The memo [appIdToEnvId].  Of the type [Application] of this file only
    [id], [uuid], [environment_id] and [environment_uuid] are read; the
    records of [lib/resources] have them all. *)
Definition appIdToEnvId (applications : list Application.t) : gmap string string :=
  foldl
    (fun (map : gmap string string) app =>
       let envId :=
         default ""
           (Filters.toId (Application.environment_id app
                          ?? of_str (Application.environment_uuid app))) in
       let map :=
         if match Application.id app with Undefined => false | _ => true end
            && negb (String.eqb envId "")
         then <[String_ (Application.id app) := envId]> map else map in
       if truthy (Application.uuid app) && negb (String.eqb envId "")
       then <[interp (Application.uuid app) := envId]> map else map)
    ∅ applications.

(** The memo [filteredAppUuids]: the applications whose deployments are
    asked for. *)
Definition filteredAppUuids (applications : list Application.t)
    (filterValue : string) (envToProjectMap : gmap string string)
    (envNameToIds : gmap string (gset string)) : list string :=
  let apps := applications in
  if Nat.eqb (length apps) 0 then []
  else if startsWith filterValue "project:" then
    let projectId := replace "project:" "" filterValue in
    let envIds :=
      map fst
        (List.filter (fun entry => String.eqb (snd entry) projectId)
           (map_to_list envToProjectMap)) in
    let envSet : gset string := list_to_set envIds in
    filterBoolean
      (map Application.uuid
         (List.filter
            (fun app =>
               bool_decide
                 (String_ (Application.environment_id app
                           ?? of_str (Application.environment_uuid app)
                           ?? Str "") ∈ envSet))
            apps))
  else if startsWith filterValue "env:" then
    let envName := replace "env:" "" filterValue in
    match envNameToIds !! envName with
    | None => []
    | Some envIds =>
        filterBoolean
          (map Application.uuid
             (List.filter
                (fun app =>
                   bool_decide
                     (String_ (Application.environment_id app
                               ?? of_str (Application.environment_uuid app)
                               ?? Str "") ∈ envIds))
                apps))
    end
  else filterBoolean (map Application.uuid (firstn 20 apps)).

End SearchDeployments.

(** ** [components/environment-resources] *)

Module EnvironmentResources.
Import JS.

(** The memo [filteredResources]: the resources of one environment. *)
Definition filteredResources (environmentId environmentUuid : option string)
    (resources : list ResourceItem.t) : list ResourceItem.t :=
  let envId := Filters.toId (of_str environmentId) in
  let envUuid := Filters.toId (of_str environmentUuid) in
  let keys : gset string := list_to_set (filterBoolean [envId; envUuid]) in
  if Nat.eqb (size keys) 0 then []
  else
    List.filter
      (fun item =>
         bool_decide
           (default "" (Filters.toId (of_str (ResourceItem.environmentId item)))
            ∈ keys))
      resources.

End EnvironmentResources.

(** ** [components/logs-actions] *)

Module LogsActions.
Import JS.

Definition buildConsoleLogsUrl (instanceUrl : string)
    (projectUuid environmentUuid applicationUuid : option string)
  : option string :=
  if negb (truthy projectUuid) || negb (truthy environmentUuid)
     || negb (truthy applicationUuid)
  then None
  else
    let base := stripTrailingSlashes instanceUrl in
    Some (base +:+ "/project/" +:+ interp projectUuid
          +:+ "/environment/" +:+ interp environmentUuid
          +:+ "/application/" +:+ interp applicationUuid
          +:+ "/logs").

End LogsActions.

(** ** Notions of the specification

    The vocabulary in which the properties below are stated. *)

Module Spec.
Import JS.

(** A run of [n] slashes. *)
Fixpoint slashes (n : nat) : string :=
  match n with
  | O => EmptyString
  | S m => String "/"%char (slashes m)
  end.

Fixpoint lastChar (s : string) : option ascii :=
  match s with
  | EmptyString => None
  | String c EmptyString => Some c
  | String _ rest => lastChar rest
  end.

Definition firstChar (s : string) : option ascii :=
  match s with
  | EmptyString => None
  | String c _ => Some c
  end.

(** An optional UUID is present when it is given and not empty. *)
Definition present (o : option string) : Prop :=
  exists s, o = Some s /\ s <> "".

Definition missing (o : option string) : Prop :=
  o = None \/ o = Some "".

(** The part of a string before its first comma. *)
Fixpoint firstToken (s : string) : string :=
  match s with
  | String c rest => if Ascii.eqb c ","%char then EmptyString else String c (firstToken rest)
  | EmptyString => EmptyString
  end.

(** A token declares a scheme when it starts with a URI scheme (a letter,
    then letters, digits, [+], [-] or [.]) followed by [://]. *)
Definition isAlpha (c : ascii) : bool :=
  let n := nat_of_ascii c in
  (Nat.leb 65 n && Nat.leb n 90) || (Nat.leb 97 n && Nat.leb n 122).

Definition isSchemeChar (c : ascii) : bool :=
  let n := nat_of_ascii c in
  isAlpha c || (Nat.leb 48 n && Nat.leb n 57)
  || Ascii.eqb c "+"%char || Ascii.eqb c "-"%char || Ascii.eqb c "."%char.

Fixpoint afterScheme (s : string) : string :=
  match s with
  | String c rest => if isSchemeChar c then afterScheme rest else s
  | EmptyString => EmptyString
  end.

Definition declaresScheme (s : string) : bool :=
  match s with
  | String c _ => isAlpha c && String.prefix "://" (afterScheme s)
  | EmptyString => false
  end.

(** The primary URL rule as the specification words it: the trimmed first
    token is returned unchanged when it declares a scheme, and prefixed
    with [https://] otherwise. *)
Definition primaryUrlAsStated (app : Application.t) : Prop :=
  forall f : string,
    Application.fqdn app = Some f ->
    let token := trim (firstToken f) in
    token <> "" ->
    Resources.getPrimaryUrl app =
      Some (if declaresScheme token then token else "https://" +:+ token).

(** Reading a property without failing: what a property read yields on a
    value that is neither [undefined] nor [null]. *)
Definition prop (v : jsval) (key : string) : jsval :=
  match v with
  | JObj props => default JUndefined (props !! key)
  | _ => JUndefined
  end.

(** The recognised shapes of a list response, in priority order. *)
Definition shapes (response : jsval) : list jsval :=
  [ prop response "rows";
    prop response "data";
    prop response "deployments";
    prop (prop response "data") "rows";
    prop (prop response "data") "data" ].

(** The elements of the first array among the candidates, or nothing. *)
Definition firstArray (candidates : list jsval) : list jsval :=
  match List.find isArray candidates with
  | Some v => elements v
  | None => []
  end.

End Spec.

(** ** Loop bodies

    The bodies of the loops of [api/filters], named so that the properties
    below can speak about one iteration. *)

Module Folds.
Import JS Filters.

(** The record that [flattenEnvironments] pushes for one environment of one
    project. *)
Definition enriched (project : Project.t) (environment : Environment.t)
  : ProjectEnvironment.t :=
  {| ProjectEnvironment.id := Environment.id environment;
     ProjectEnvironment.uuid := Environment.uuid environment;
     ProjectEnvironment.name := Environment.name environment;
     ProjectEnvironment.project_id := Environment.project_id environment;
     ProjectEnvironment.project_uuid := Environment.project_uuid environment;
     ProjectEnvironment.projectId :=
       orElse (toId (Project.id project ?? of_str (Project.uuid project)))
         (orElse
            (toId (Environment.project_id environment
                   ?? of_str (Environment.project_uuid environment)))
            None);
     ProjectEnvironment.projectName :=
       Some (default "Unnamed Project" (Project.name project));
     ProjectEnvironment.projectUuid :=
       if truthy (Project.uuid project) then Project.uuid project else None |}.

(** The two keys of an environment. *)
Definition envId (env : ProjectEnvironment.t) : option string :=
  toId (ProjectEnvironment.id env).

Definition envUuid (env : ProjectEnvironment.t) : option string :=
  toId (of_str (ProjectEnvironment.uuid env)).

(** [k] is the normalised id or the normalised uuid of [env]. *)
Definition hasKey (env : ProjectEnvironment.t) (k : string) : Prop :=
  envId env = Some k \/ envUuid env = Some k.

Definition hasKeyb (env : ProjectEnvironment.t) (k : string) : bool :=
  bool_decide (envId env = Some k) || bool_decide (envUuid env = Some k).

(** What each builder stores for an environment; [None] when the builder
    skips the environment. *)
Definition projectOf (env : ProjectEnvironment.t) : option string :=
  toId (of_str (ProjectEnvironment.projectId env)
        ?? of_str (ProjectEnvironment.project_uuid env)
        ?? ProjectEnvironment.project_id env).

Definition nameOf (env : ProjectEnvironment.t) : string :=
  default "Unnamed Environment" (ProjectEnvironment.name env).

Section kv.
Context {V : Type}.
Variable valueOf : ProjectEnvironment.t -> option V.

(** One iteration of a builder that maps both keys to one value. *)
Definition kvStep (map : gmap string V) (env : ProjectEnvironment.t)
  : gmap string V :=
  match valueOf env with
  | Some v => setIf (envUuid env) v (setIf (envId env) v map)
  | None => map
  end.

(** The iteration for [env] writes under [k]. *)
Definition writes (env : ProjectEnvironment.t) (k : string) : bool :=
  match valueOf env with
  | Some _ => hasKeyb env k
  | None => false
  end.

(** The last environment of the sequence that writes under [k]. *)
Fixpoint lastWriter (k : string) (envs : list ProjectEnvironment.t)
  : option ProjectEnvironment.t :=
  match envs with
  | [] => None
  | env :: rest =>
      match lastWriter k rest with
      | Some w => Some w
      | None => if writes env k then Some env else None
      end
  end.

(** Environments that write under a common key write the same value. *)
Definition agree (envs : list ProjectEnvironment.t) : Prop :=
  forall e1 e2 k,
    In e1 envs -> In e2 envs ->
    writes e1 k = true -> writes e2 k = true -> valueOf e1 = valueOf e2.

End kv.

(** The keys of an environment, as [buildEnvNameToIdsMap] adds them. *)
Definition keySet (env : ProjectEnvironment.t) : gset string :=
  addIf (envUuid env) (addIf (envId env) ∅).

(** One iteration of [buildEnvNameToIdsMap]. *)
Definition nameStep (map : gmap string (gset string))
    (env : ProjectEnvironment.t) : gmap string (gset string) :=
  let name := nameOf env in
  let set := default ∅ (map !! name) in
  let set := addIf (envUuid env) (addIf (envId env) set) in
  if Nat.eqb (size set) 0 then map else <[name := set]> map.

(** The keys of all the environments called [n]. *)
Fixpoint idsOf (n : string) (envs : list ProjectEnvironment.t) : gset string :=
  match envs with
  | [] => ∅
  | env :: rest =>
      (if String.eqb (nameOf env) n then keySet env else ∅) ∪ idsOf n rest
  end.

End Folds.

(** ** Further notions *)

Module Notions.
Import JS.

(** The path under which the environments of a project are asked for. *)
Definition environmentsPath (project : Project.t) : string :=
  "/projects/" +:+ default "" (Project.uuid project) +:+ "/environments".

(** The projects whose environments are asked for: those with a uuid. *)
Definition asked (projects : list Project.t) : list Project.t :=
  List.filter (fun project => truthy (Project.uuid project)) projects.

(** The environment id that the unified list resolves for a record: its
    [environment_id], or else its [environment_uuid], as a string. *)
Definition applicationKey (app : Application.t) : string :=
  String_ (Application.environment_id app
           ?? of_str (Application.environment_uuid app) ?? Str "").

Definition serviceKey (service : Service.t) : string :=
  String_ (Service.environment_id service
           ?? of_str (Service.environment_uuid service) ?? Str "").

Definition databaseKey (database : Database.t) : string :=
  String_ (Database.environment_id database
           ?? of_str (Database.environment_uuid database) ?? Str "").

(** One iteration of the grouping loop. *)
Definition groupStep (groups : list (string * ResourceGroup.t))
    (entry : ResourceEntry.t) : list (string * ResourceGroup.t) :=
  let key := ResourceEntry.projectName entry in
  let groups :=
    if negb (Grouping.has key groups) then
      (groups ++ [(key, {| ResourceGroup.projectName :=
                             ResourceEntry.projectName entry;
                           ResourceGroup.items := [] |})])%list
    else groups in
  Grouping.pushTo key entry groups.

(** The entries of a project, in their order. *)
Definition entriesOf (projectName : string) (entries : list ResourceEntry.t)
  : list ResourceEntry.t :=
  List.filter
    (fun entry => String.eqb (ResourceEntry.projectName entry) projectName)
    entries.

(** What holds of the bindings after the loop has run over [entries]. *)
Definition grouped (entries : list ResourceEntry.t)
    (groups : list (string * ResourceGroup.t)) : Prop :=
  NoDup (map fst groups)
  /\ (forall k g, In (k, g) groups ->
         ResourceGroup.projectName g = k
         /\ ResourceGroup.items g = entriesOf k entries
         /\ ResourceGroup.items g <> [])
  /\ (forall entry, In entry entries ->
         In (ResourceEntry.projectName entry) (map fst groups)).

(** A character that a normalised status may hold: no white space, no
    hyphen, no capital. *)
Definition statusChar (c : ascii) : bool :=
  negb (isWhiteSpace c) && negb (isHyphen c) && Ascii.eqb (lowerChar c) c.

(** A URL with the scheme [http] or [https]. *)
Definition isHttp (url : string) : bool :=
  startsWith url "http://" || startsWith url "https://".

(** The environment of an application, as [appIdToEnvId] registers it. *)
Definition applicationEnv (app : Application.t) : string :=
  default ""
    (Filters.toId (Application.environment_id app
                   ?? of_str (Application.environment_uuid app))).

(** One iteration of the loop of [appIdToEnvId]. *)
Definition appStep (map : gmap string string) (app : Application.t)
  : gmap string string :=
  let envId := applicationEnv app in
  let map :=
    if match Application.id app with Undefined => false | _ => true end
       && negb (String.eqb envId "")
    then <[String_ (Application.id app) := envId]> map else map in
  if truthy (Application.uuid app) && negb (String.eqb envId "")
  then <[interp (Application.uuid app) := envId]> map else map.

(** [k] is a key under which [appIdToEnvId] registers the application: the
    string of its id, when the id is not [undefined], or its uuid, when it
    is not empty; provided the application has an environment. *)
Definition appKey (app : Application.t) (k : string) : Prop :=
  applicationEnv app <> ""
  /\ ((Application.id app <> Undefined /\ k = String_ (Application.id app))
      \/ (k <> "" /\ Application.uuid app = Some k)).

(** The environment that an enriched record was made of. *)
Definition environmentOf (env : ProjectEnvironment.t) : Environment.t :=
  {| Environment.id := ProjectEnvironment.id env;
     Environment.uuid := ProjectEnvironment.uuid env;
     Environment.name := ProjectEnvironment.name env;
     Environment.project_id := ProjectEnvironment.project_id env;
     Environment.project_uuid := ProjectEnvironment.project_uuid env |}.

(** The environments that the two loops of [flattenEnvironments] visit, in
    the order in which they visit them, each with the project of the outer
    loop. *)
Definition nested (projects : list Project.t) : list (Project.t * Environment.t) :=
  flat_map
    (fun project => map (pair project) (default [] (Project.environments project)))
    projects.

End Notions.

(** ** Claims of the specification, as it words them *)

Module Stated.
Import JS Filters Folds.

(** Both maps hold an entry under each key form of every environment that
    has one, and both key forms of an environment lead to the same record
    and to the same project id. *)
Definition keyedByBothForms (envs : list ProjectEnvironment.t) : Prop :=
  forall env,
    In env envs ->
    (forall k, hasKey env k ->
       is_Some (buildEnvLookup envs !! k)
       /\ is_Some (buildEnvToProjectMap envs !! k))
    /\ (forall k1 k2, hasKey env k1 -> hasKey env k2 ->
          buildEnvLookup envs !! k1 = buildEnvLookup envs !! k2
          /\ buildEnvToProjectMap envs !! k1 = buildEnvToProjectMap envs !! k2).

(** Every permutation of the environments gives the same four maps. *)
Definition orderIndependent (envs envs' : list ProjectEnvironment.t) : Prop :=
  Permutation envs envs' ->
  buildEnvToProjectMap envs = buildEnvToProjectMap envs'
  /\ buildEnvNameMap envs = buildEnvNameMap envs'
  /\ buildEnvLookup envs = buildEnvLookup envs'
  /\ buildEnvNameToIdsMap envs = buildEnvNameToIdsMap envs'.

(** The project id that the specification announces for an environment of a
    project: the normalised id of the project, or else its normalised uuid,
    and the reference of the environment only when the project has
    neither. *)
Definition projectIdAsStated (project : Project.t) (environment : Environment.t)
  : option string :=
  orElse (toId (Project.id project))
    (orElse (toId (of_str (Project.uuid project)))
       (toId (Environment.project_id environment
              ?? of_str (Environment.project_uuid environment)))).

End Stated.

(** ** Sample data *)

Module Examples.
Import JS.

(** An application of which only [fqdn] and [environment_id] are given. *)
Definition appWith (fqdn : option string) (environment_id : idval) : Application.t :=
  {| Application.id := Undefined; Application.uuid := None;
     Application.name := None; Application.fqdn := fqdn;
     Application.git_repository := None; Application.git_branch := None;
     Application.environment_id := environment_id;
     Application.environment_uuid := None; Application.status := None;
     Application.deployment_status := None;
     Application.last_deployment_status := None |}.

Definition withFqdn (fqdn : option string) : Application.t := appWith fqdn Undefined.

(** The project and the environment of the end-to-end scenario. *)
Definition production : Environment.t :=
  {| Environment.id := Num 10; Environment.uuid := Some "e1";
     Environment.name := Some "production";
     Environment.project_id := Undefined; Environment.project_uuid := None |}.

Definition demo : Project.t :=
  {| Project.id := Num 1; Project.uuid := Some "p1";
     Project.name := Some "Demo"; Project.environments := Some [production] |}.

(** A project without id, uuid or name, whose environment refers to
    project 7. *)
Definition orphan : Environment.t :=
  {| Environment.id := Num 20; Environment.uuid := None;
     Environment.name := None;
     Environment.project_id := Num 7; Environment.project_uuid := None |}.

Definition anonymous : Project.t :=
  {| Project.id := Undefined; Project.uuid := None;
     Project.name := None; Project.environments := Some [orphan] |}.

(** Two environments that share the id 10 and differ in everything else,
    and an environment that belongs to no project. *)
Definition staging : ProjectEnvironment.t :=
  {| ProjectEnvironment.id := Num 10; ProjectEnvironment.uuid := Some "e1";
     ProjectEnvironment.name := Some "staging";
     ProjectEnvironment.project_id := Undefined;
     ProjectEnvironment.project_uuid := None;
     ProjectEnvironment.projectId := Some "1";
     ProjectEnvironment.projectName := Some "Demo";
     ProjectEnvironment.projectUuid := Some "p1" |}.

Definition preview : ProjectEnvironment.t :=
  {| ProjectEnvironment.id := Str "10"; ProjectEnvironment.uuid := Some "e2";
     ProjectEnvironment.name := Some "preview";
     ProjectEnvironment.project_id := Undefined;
     ProjectEnvironment.project_uuid := None;
     ProjectEnvironment.projectId := Some "2";
     ProjectEnvironment.projectName := Some "Other";
     ProjectEnvironment.projectUuid := Some "p2" |}.

Definition unassigned : ProjectEnvironment.t :=
  {| ProjectEnvironment.id := Num 30; ProjectEnvironment.uuid := Some "e3";
     ProjectEnvironment.name := Some "scratch";
     ProjectEnvironment.project_id := Undefined;
     ProjectEnvironment.project_uuid := None;
     ProjectEnvironment.projectId := None;
     ProjectEnvironment.projectName := Some "Unnamed Project";
     ProjectEnvironment.projectUuid := None |}.

(** A database of which only the environment fields are given. *)
Definition dbWith (environment_id : idval) (environment_uuid : option string)
  : Database.t :=
  {| Database.id := Undefined; Database.uuid := None; Database.name := None;
     Database.description := None; Database.environment_id := environment_id;
     Database.environment_uuid := environment_uuid; Database.db_type := None |}.

(** A project whose id is a blank string and which has a uuid. *)
Definition blankId : Project.t :=
  {| Project.id := Str " "; Project.uuid := Some "p1";
     Project.name := Some "Blank"; Project.environments := Some [orphan] |}.

(** The application of the end-to-end scenario, and two environments called
    staging in two projects, each with a database. *)
Definition web : Application.t :=
  {| Application.id := Num 100; Application.uuid := Some "a1";
     Application.name := Some "web"; Application.fqdn := Some "web.example.com";
     Application.git_repository := None; Application.git_branch := None;
     Application.environment_id := Num 10;
     Application.environment_uuid := None; Application.status := None;
     Application.deployment_status := None;
     Application.last_deployment_status := None |}.

Definition stagingOf (id : Z) (uuid project : string) : ProjectEnvironment.t :=
  {| ProjectEnvironment.id := Num id; ProjectEnvironment.uuid := Some uuid;
     ProjectEnvironment.name := Some "staging";
     ProjectEnvironment.project_id := Undefined;
     ProjectEnvironment.project_uuid := None;
     ProjectEnvironment.projectId := Some project;
     ProjectEnvironment.projectName := None;
     ProjectEnvironment.projectUuid := None |}.

(** A deployment of which only the application, the environment and the
    status are given. *)
Definition deploymentOf (source_app_uuid : option string)
    (environment_id : idval) (status : option string) : Deployment.t :=
  {| Deployment.id := Undefined; Deployment.deployment_uuid := None;
     Deployment.status := status; Deployment.application_id := Undefined;
     Deployment.application_uuid := None; Deployment.application_name := None;
     Deployment.name := None; Deployment.deployment_url := None;
     Deployment.commit_message := None; Deployment.commit := None;
     Deployment.created_at := None; Deployment.updated_at := None;
     Deployment.source_app_uuid := source_app_uuid;
     Deployment.environment_id := environment_id;
     Deployment.environment_uuid := None; Deployment.server_name := None;
     Deployment.git_type := None; Deployment.git_repository := None;
     Deployment.repo_url := None; Deployment.pull_request_url := None;
     Deployment.pull_request_id := Undefined |}.

End Examples.

(** * Properties *)

Set Warnings "-clear-no-such-hyp".

(** ** String primitives *)

Section strings.
Import JS.

Lemma String_append (c : ascii) (s t : string) :
  String c s +:+ t = String c (s +:+ t).
Proof. reflexivity. Qed.

Lemma append_nil_r (s : string) : s +:+ "" = s.
Proof. induction s as [|c s IH]; [done|]. by rewrite String_append, IH. Qed.

Lemma prefix_append (p s : string) : String.prefix p (p +:+ s) = true.
Proof.
  induction p as [|c p IH]; [by destruct s|].
  rewrite String_append. cbn [String.prefix].
  destruct (ascii_dec c c); [done|congruence].
Qed.

Lemma dropString_append (p s : string) :
  dropString (String.length p) (p +:+ s) = s.
Proof. induction p as [|c p IH]; [by destruct s|]. exact IH. Qed.

(** Removing a pattern that the string starts with leaves the rest. *)
Lemma replace_prefix (p s : string) : replace p "" (p +:+ s) = s.
Proof.
  destruct (p +:+ s) as [|c r] eqn:E.
  - destruct p; [|discriminate]. by destruct s.
  - rewrite <- E. clear E.
    assert (H : forall t, replace p "" t =
      if String.prefix p t then "" +:+ dropString (String.length p) t
      else match t with
           | String c rest => String c (replace p "" rest)
           | EmptyString => EmptyString
           end) by (by intros []).
    rewrite H, prefix_append, dropString_append. reflexivity.
Qed.

Lemma startsWith_append (p s : string) : startsWith (p +:+ s) p = true.
Proof. apply prefix_append. Qed.

Lemma trimEnd_nil_iff (s : string) :
  trimEnd s = "" <-> allChars isWhiteSpace s = true.
Proof.
  induction s as [|c s IH]; [done|]. cbn [trimEnd allChars].
  destruct (trimEnd s) eqn:E, (isWhiteSpace c); cbn; split; try done.
  - intros _. by apply IH.
  - intros H. apply IH in H. discriminate.
Qed.

Lemma trimStart_blank (s : string) :
  allChars isWhiteSpace (trimStart s) = allChars isWhiteSpace s.
Proof.
  induction s as [|c s IH]; [done|]. cbn [trimStart allChars].
  destruct (isWhiteSpace c) eqn:E; [done|]. cbn [allChars]. by rewrite E.
Qed.

(** A string trims to nothing exactly when it is made of white space. *)
Lemma trim_blank (s : string) :
  trim s = "" <-> allChars isWhiteSpace s = true.
Proof. unfold trim. by rewrite trimEnd_nil_iff, trimStart_blank. Qed.

Lemma trimStart_decompose (s : string) :
  exists pre, s = pre +:+ trimStart s /\ allChars isWhiteSpace pre = true.
Proof.
  induction s as [|c s (pre & IH & Hpre)]; [by exists ""|]. cbn [trimStart].
  destruct (isWhiteSpace c) eqn:E; [|by exists ""].
  exists (String c pre). rewrite String_append, <- IH. cbn [allChars].
  by rewrite E, Hpre.
Qed.

Lemma trimEnd_decompose (s : string) :
  exists post, s = trimEnd s +:+ post /\ allChars isWhiteSpace post = true.
Proof.
  induction s as [|c s (post & IH & Hpost)]; [by exists ""|]. cbn [trimEnd].
  destruct (trimEnd s) as [|d kept] eqn:E.
  - change ("" +:+ post) with post in IH. subst post.
    destruct (isWhiteSpace c) eqn:Ec.
    + exists (String c s). cbn [allChars]. by rewrite Ec, Hpost.
    + by exists s.
  - exists post. by rewrite String_append, <- IH.
Qed.

(** What [trim] removes is white space at both ends, and what it keeps
    neither starts nor ends with white space. *)
Lemma trim_decompose (s : string) :
  exists pre post,
    s = pre +:+ trim s +:+ post
    /\ allChars isWhiteSpace pre = true
    /\ allChars isWhiteSpace post = true.
Proof.
  destruct (trimStart_decompose s) as (pre & Hs & Hpre).
  destruct (trimEnd_decompose (trimStart s)) as (post & Ht & Hpost).
  exists pre, post. unfold trim. by rewrite <- Ht.
Qed.

Lemma trimStart_first (s : string) (c : ascii) :
  Spec.firstChar (trimStart s) = Some c -> isWhiteSpace c = false.
Proof.
  induction s as [|d s IH]; [done|]. cbn [trimStart].
  destruct (isWhiteSpace d) eqn:E; [done|]. by intros [= <-].
Qed.

Lemma trimEnd_first (s : string) :
  trimEnd s <> "" -> Spec.firstChar (trimEnd s) = Spec.firstChar s.
Proof.
  destruct s as [|c s]; [done|]. cbn [trimEnd].
  destruct (trimEnd s); [|done]. by destruct (isWhiteSpace c).
Qed.

Lemma trimEnd_last (s : string) (c : ascii) :
  Spec.lastChar (trimEnd s) = Some c -> isWhiteSpace c = false.
Proof.
  induction s as [|d s IH]; [done|]. cbn [trimEnd].
  destruct (trimEnd s) as [|e kept] eqn:E.
  - destruct (isWhiteSpace d) eqn:Ed; [done|]. by intros [= <-].
  - exact IH.
Qed.

Lemma trim_ends (s : string) (c : ascii) :
  Spec.firstChar (trim s) = Some c \/ Spec.lastChar (trim s) = Some c ->
  isWhiteSpace c = false.
Proof.
  unfold trim. intros [H|H]; [|by apply trimEnd_last in H].
  rewrite trimEnd_first in H; [by apply trimStart_first in H|].
  by intros E; rewrite E in H.
Qed.

Lemma allSlashes_eq (s : string) :
  allChars isSlash s = true -> s = Spec.slashes (String.length s).
Proof.
  induction s as [|c s IH]; [done|]. cbn. intros [Hc Hs]%andb_prop.
  apply Ascii.eqb_eq in Hc. subst c. by rewrite <- IH.
Qed.

Lemma stripTrailingSlashes_nil (s : string) :
  stripTrailingSlashes s = "" -> allChars isSlash s = true.
Proof.
  destruct s as [|c s]; [done|]. cbn [stripTrailingSlashes].
  by destruct (allChars isSlash (String c s)).
Qed.

(** The base is the URL without its trailing run of slashes. *)
Lemma stripTrailingSlashes_decompose (s : string) :
  exists n, s = stripTrailingSlashes s +:+ Spec.slashes n.
Proof.
  induction s as [|c s [n IH]]; [by exists 0|]. cbn [stripTrailingSlashes].
  destruct (allChars isSlash (String c s)) eqn:E.
  - exists (String.length (String c s)). by apply allSlashes_eq.
  - exists n. rewrite String_append. by rewrite <- IH.
Qed.

Lemma stripTrailingSlashes_last (s : string) :
  Spec.lastChar (stripTrailingSlashes s) <> Some "/"%char.
Proof.
  induction s as [|c s IH]; [done|]. cbn [stripTrailingSlashes].
  destruct (allChars isSlash (String c s)) eqn:E; [done|].
  cbn [Spec.lastChar]. destruct (stripTrailingSlashes s) eqn:Es; [|done].
  apply stripTrailingSlashes_nil in Es. cbn in E. rewrite Es, andb_true_r in E.
  intros [= ->]. discriminate.
Qed.

Lemma head_split (s : string) :
  head (split ","%char s) = Some (Spec.firstToken s).
Proof.
  induction s as [|c s IH]; [done|]. cbn [split Spec.firstToken].
  destruct (Ascii.eqb c ","); [done|].
  destruct (split "," s); [done|]. cbn in *. congruence.
Qed.

End strings.

(** ** Identifier normaliser *)

Section normaliser.
Import JS Filters.

Lemma toId_Some (v : idval) (s : string) :
  toId v = Some s -> s = trim (String_ v) /\ s <> "" /\ nullish v = false.
Proof.
  unfold toId. destruct (nullish v); [done|].
  destruct (trim (String_ v)) eqn:E; cbn; [done|]. by intros [= <-].
Qed.

Lemma toId_nonempty (v : idval) : toId v <> Some "".
Proof. intros H. by apply toId_Some in H as (_ & ? & _). Qed.

Lemma whenTruthy_toId {A : Type} (v : idval) (f : string -> A) (d : A) :
  whenTruthy (toId v) f d = match toId v with Some k => f k | None => d end.
Proof.
  destruct (toId v) as [k|] eqn:E; [|done]. cbn.
  destruct k; [by apply toId_nonempty in E|done].
Qed.

(** C1. [toId] returns [null] exactly for [undefined], for [null] and for a
    value whose string representation is blank once trimmed (for a string:
    one made of white space only); for every other value it returns the
    trimmed string representation, so that [42], ["42"] and [" 42 "] all
    normalise to ["42"]. *)
Theorem toId_normalises (v : idval) :
  (toId v = None <-> v = Undefined \/ v = Null \/ trim (String_ v) = "")
  /\ (toId v <> None -> toId v = Some (trim (String_ v)))
  /\ (forall s, toId (Str s) = None <-> allChars isWhiteSpace s = true)
  /\ toId (Num 42) = Some "42"
  /\ toId (Str "42") = Some "42"
  /\ toId (Str " 42 ") = Some "42".
Proof.
  split; [|split; [|split; [|by vm_compute]]]; cycle 2.
  { intros s. rewrite <- trim_blank. unfold toId. cbn [nullish String_].
    destruct (trim s); cbn; split; auto; discriminate. }
  - unfold toId. destruct v as [| |n|s]; cbn [nullish String_].
    + split; auto.
    + split; auto.
    + destruct (trim (pretty n)); cbn; split; auto; try discriminate.
      intros [?|[?|?]]; discriminate.
    + destruct (trim s); cbn; split; auto; try discriminate.
      intros [?|[?|?]]; discriminate.
  - destruct (toId v) as [s|] eqn:E; [|done]. intros _.
    by apply toId_Some in E as (-> & _).
Qed.

End normaliser.

(** ** URL resolvers *)

Section urls.
Import JS.

Lemma truthy_present (o : option string) :
  truthy o = true <-> Spec.present o.
Proof.
  unfold Spec.present. destruct o as [[|c s]|]; cbn; split; try done.
  - intros (s & [= <-] & Hs). done.
  - intros _. by eexists.
  - intros (s & [=] & _).
Qed.

Lemma truthy_missing (o : option string) :
  truthy o = false <-> Spec.missing o.
Proof.
  unfold Spec.missing. destruct o as [[|c s]|]; cbn; split; auto; try done.
  intros [[=]|[=]].
Qed.

(** C4. Each URL builder returns [undefined] as soon as one of the UUIDs it
    needs is missing (absent or empty).  When all are present, the resource
    URL is the instance URL without its trailing slashes followed by
    [/project/{projectUuid}/environment/{environmentUuid}/{type}/{resourceUuid}];
    the logs URL and the deployment URL are built in the same way, with
    [/application/{uuid}/logs] and
    [/application/{uuid}/deployment/{deploymentUuid}] in the last places. *)
Theorem url_builders_all_or_nothing
    (instanceUrl : string) (type : ResourceType.t)
    (projectUuid environmentUuid resourceUuid deploymentUuid : option string) :
  let base := stripTrailingSlashes instanceUrl in
  ((exists n, instanceUrl = base +:+ Spec.slashes n)
   /\ Spec.lastChar base <> Some "/"%char)
  /\ ((Spec.missing projectUuid \/ Spec.missing environmentUuid
       \/ Spec.missing resourceUuid ->
       SearchResources.resolveResourceUrl instanceUrl projectUuid
         environmentUuid resourceUuid type = None
       /\ SearchDeployments.buildCoolifyLogsUrl instanceUrl projectUuid
            environmentUuid resourceUuid = None
       /\ LogsActions.buildConsoleLogsUrl instanceUrl projectUuid
            environmentUuid resourceUuid = None)
      /\ (Spec.missing projectUuid \/ Spec.missing environmentUuid
          \/ Spec.missing resourceUuid \/ Spec.missing deploymentUuid ->
          SearchDeployments.buildCoolifyDeploymentUrl instanceUrl projectUuid
            environmentUuid resourceUuid deploymentUuid = None))
  /\ (forall p e r : string,
        projectUuid = Some p -> environmentUuid = Some e ->
        resourceUuid = Some r -> p <> "" -> e <> "" -> r <> "" ->
        SearchResources.resolveResourceUrl instanceUrl projectUuid
          environmentUuid resourceUuid type
        = Some (base +:+ "/project/" +:+ p +:+ "/environment/" +:+ e
                +:+ "/" +:+ ResourceType.tag type +:+ "/" +:+ r)
        /\ SearchDeployments.buildCoolifyLogsUrl instanceUrl projectUuid
             environmentUuid resourceUuid
           = Some (base +:+ "/project/" +:+ p +:+ "/environment/" +:+ e
                   +:+ "/application/" +:+ r +:+ "/logs")
        /\ LogsActions.buildConsoleLogsUrl instanceUrl projectUuid
             environmentUuid resourceUuid
           = Some (base +:+ "/project/" +:+ p +:+ "/environment/" +:+ e
                   +:+ "/application/" +:+ r +:+ "/logs")
        /\ (forall d : string,
              deploymentUuid = Some d -> d <> "" ->
              SearchDeployments.buildCoolifyDeploymentUrl instanceUrl
                projectUuid environmentUuid resourceUuid deploymentUuid
              = Some (base +:+ "/project/" +:+ p +:+ "/environment/" +:+ e
                      +:+ "/application/" +:+ r +:+ "/deployment/" +:+ d))).
Proof.
  intros base. split; [|split; [split|]].
  - split; [apply stripTrailingSlashes_decompose|apply stripTrailingSlashes_last].
  - intros H.
    assert (Hb : negb (truthy projectUuid) || negb (truthy environmentUuid)
                 || negb (truthy resourceUuid) = true).
    { destruct H as [H|[H|H]]; apply truthy_missing in H; rewrite H; cbn;
        rewrite ?orb_true_r; done. }
    unfold SearchResources.resolveResourceUrl,
      SearchDeployments.buildCoolifyLogsUrl, LogsActions.buildConsoleLogsUrl.
    by rewrite Hb.
  - intros H. unfold SearchDeployments.buildCoolifyDeploymentUrl.
    assert (Hb : negb (truthy projectUuid) || negb (truthy environmentUuid)
                 || negb (truthy resourceUuid) || negb (truthy deploymentUuid)
                 = true); [|by rewrite Hb].
    destruct H as [H|[H|[H|H]]]; apply truthy_missing in H; rewrite H; cbn;
      rewrite ?orb_true_r; done.
  - intros p e r -> -> -> Hp He Hr.
    assert (Tp : truthy (Some p) = true) by (apply truthy_present; by eexists).
    assert (Te : truthy (Some e) = true) by (apply truthy_present; by eexists).
    assert (Tr : truthy (Some r) = true) by (apply truthy_present; by eexists).
    unfold SearchResources.resolveResourceUrl,
      SearchDeployments.buildCoolifyLogsUrl, LogsActions.buildConsoleLogsUrl,
      SearchDeployments.buildCoolifyDeploymentUrl.
    rewrite Tp, Te, Tr. cbn [negb orb interp of_str String_].
    repeat split. intros d -> Hd.
    assert (Td : truthy (Some d) = true) by (apply truthy_present; by eexists).
    rewrite Td. reflexivity.
Qed.

(** At a concrete instance URL with two trailing slashes. *)
Lemma url_builders_all_or_nothing_witness :
  SearchResources.resolveResourceUrl "https://instance//" (Some "p1")
    (Some "e1") (Some "a1") ResourceType.application
  = Some "https://instance/project/p1/environment/e1/application/a1"
  /\ SearchResources.resolveResourceUrl "https://instance//" (Some "p1")
       None (Some "a1") ResourceType.application = None.
Proof.
  destruct (url_builders_all_or_nothing "https://instance//"
              ResourceType.application (Some "p1") (Some "e1") (Some "a1") None)
    as (_ & _ & Hall).
  destruct (url_builders_all_or_nothing "https://instance//"
              ResourceType.application (Some "p1") None (Some "a1") None)
    as (_ & [Hnone _] & _).
  split.
  - destruct (Hall "p1" "e1" "a1") as [H _]; done.
  - destruct Hnone as [H _]; [|exact H]. right. left. by left.
Defined.

End urls.

(** ** Primary URL of an application *)

Section primary_url.
Import JS Examples.

Lemma getPrimaryUrl_unfold (app : Application.t) (f : string) :
  Application.fqdn app = Some f ->
  Resources.getPrimaryUrl app =
    let token := trim (Spec.firstToken f) in
    if String.eqb token "" then None
    else if startsWith token "http://" || startsWith token "https://"
         then Some token else Some ("https://" +:+ token).
Proof.
  intros Hf. unfold Resources.getPrimaryUrl. rewrite Hf. cbn [truthy interp of_str String_].
  destruct f as [|c f]; [done|]. cbn [String.eqb negb].
  rewrite head_split. cbn [fmap option_fmap option_map whenTruthy].
  reflexivity.
Qed.

(** C9, as amended.  [getPrimaryUrl] returns [undefined] when [fqdn] is
    absent or empty, or when its first comma-separated token trims to the
    empty string.  Otherwise it returns the trimmed first token: unchanged
    when the token starts with [http://] or [https://], and prefixed with
    [https://] in every other case.  Its two declarations agree. *)
Theorem getPrimaryUrl_first_token (app : Application.t) :
  SearchApplications.getPrimaryUrl app = Resources.getPrimaryUrl app
  /\ (Spec.missing (Application.fqdn app) -> Resources.getPrimaryUrl app = None)
  /\ (forall f : string,
        Application.fqdn app = Some f ->
        let token := trim (Spec.firstToken f) in
        (token = "" -> Resources.getPrimaryUrl app = None)
        /\ (token <> "" ->
            startsWith token "http://" || startsWith token "https://" = true ->
            Resources.getPrimaryUrl app = Some token)
        /\ (token <> "" ->
            startsWith token "http://" || startsWith token "https://" = false ->
            Resources.getPrimaryUrl app = Some ("https://" +:+ token))).
Proof.
  split; [reflexivity|]. split.
  - intros H%truthy_missing. unfold Resources.getPrimaryUrl. by rewrite H.
  - intros f Hf token. rewrite (getPrimaryUrl_unfold app f Hf). fold token.
    cbv zeta. repeat split.
    + by intros ->.
    + intros Hne Hs. rewrite Hs.
      destruct (String.eqb_spec token ""); [done|reflexivity].
    + intros Hne Hs. rewrite Hs.
      destruct (String.eqb_spec token ""); [done|reflexivity].
Qed.

(** A bare host name gets the [https://] prefix; a token that starts with
    [http://] is kept. *)
Lemma getPrimaryUrl_first_token_witness :
  Resources.getPrimaryUrl (withFqdn (Some " web.example.com ,http://other"))
  = Some "https://web.example.com"
  /\ Resources.getPrimaryUrl (withFqdn (Some "http://web.example.com"))
     = Some "http://web.example.com".
Proof.
  split.
  - destruct (getPrimaryUrl_first_token
                (withFqdn (Some " web.example.com ,http://other")))
      as (_ & _ & H).
    destruct (H " web.example.com ,http://other" eq_refl) as (_ & _ & H3).
    by apply H3.
  - destruct (getPrimaryUrl_first_token
                (withFqdn (Some "http://web.example.com")))
      as (_ & _ & H).
    destruct (H "http://web.example.com" eq_refl) as (_ & H2 & _).
    by apply H2.
Defined.

(** The token [ftp://files.example.com] declares a scheme, and yet it is not
    returned unchanged: only [http://] and [https://] are looked for. *)
Lemma getPrimaryUrl_scheme_counterexample :
  Spec.declaresScheme "ftp://files.example.com" = true
  /\ Resources.getPrimaryUrl (withFqdn (Some "ftp://files.example.com"))
     = Some "https://ftp://files.example.com"
  /\ ~ Spec.primaryUrlAsStated (withFqdn (Some "ftp://files.example.com")).
Proof.
  split; [done|]. split; [done|]. intros H.
  specialize (H "ftp://files.example.com" eq_refl). vm_compute in H.
  assert (E := H ltac:(discriminate)). discriminate E.
Qed.

End primary_url.

(** ** Selector ["all"] *)

Section filter_all.

(** C7. With the selector ["all"], every variant of [applyFilter] returns
    the list it was given, whatever the lookup maps are. *)
Theorem applyFilter_all_identity
    (envToProjectMap appIdToEnvId : gmap string string)
    (envNameToIds : gmap string (gset string)) (hasEnvMapping : bool) :
  (forall items, SearchResources.applyFilter items "all" envToProjectMap
                   envNameToIds = items)
  /\ (forall items, SearchApplications.applyFilter items "all" envToProjectMap
                      hasEnvMapping envNameToIds = items)
  /\ (forall items, SearchServices.applyFilter items "all" envToProjectMap
                      envNameToIds = items)
  /\ (forall items, SearchDatabases.applyFilter items "all" envToProjectMap
                      envNameToIds = items)
  /\ (forall items, SearchDeployments.applyFilter items "all" envToProjectMap
                      envNameToIds appIdToEnvId = items).
Proof. repeat split. Qed.

End filter_all.

(** ** Response shapes *)

Section shapes.
Import JS SearchDeployments.

Lemma normalizeList_object (props : gmap string jsval) :
  normalizeList (JObj props) = inr (Spec.firstArray (Spec.shapes (JObj props))).
Proof.
  unfold normalizeList, Spec.firstArray, Spec.shapes.
  cbn [isArray toBoolean typeofObject negb orb getProp bind Spec.prop List.find].
  set (rows := default JUndefined (props !! "rows")).
  set (data := default JUndefined (props !! "data")).
  set (deployments := default JUndefined (props !! "deployments")).
  destruct (isArray rows); [done|].
  destruct (isArray data) eqn:Hdata; [done|].
  destruct (isArray deployments); [done|].
  destruct data as [| |b|n|s|items|nested]; cbn; try done.
  - by destruct b.
  - by destruct (Z.eqb n 0).
  - by destruct (String.eqb s "").
  - set (nestedRows := default JUndefined (nested !! "rows")).
    set (nestedData := default JUndefined (nested !! "data")).
    destruct (isArray nestedRows); [done|].
    by destruct (isArray nestedData).
Qed.

(** C2. [normalizeList] never throws.  It returns a bare array as it is;
    for an object, the first array found under [rows], [data],
    [deployments], [data.rows] and [data.data], tried in that order, and the
    empty array when none of them holds an array; and the empty array for
    every other input, such as [{}], [null] or a raw string. *)
Theorem normalizeList_shapes (response : jsval) :
  (exists items, normalizeList response = inr items)
  /\ (forall items, response = JArr items -> normalizeList response = inr items)
  /\ (forall props, response = JObj props ->
        normalizeList response = inr (Spec.firstArray (Spec.shapes response)))
  /\ (isArray response = false -> (forall props, response <> JObj props) ->
        normalizeList response = inr [])
  /\ normalizeList (JObj ∅) = inr []
  /\ normalizeList JNull = inr []
  /\ normalizeList (JStr "raw") = inr [].
Proof.
  split; [|split; [|split; [|split]]].
  - destruct response as [| |b|n|s|items|props]; try by eexists.
    + destruct b; by eexists.
    + unfold normalizeList; cbn. destruct (Z.eqb n 0); by eexists.
    + unfold normalizeList; cbn. destruct (String.eqb s ""); by eexists.
    + rewrite normalizeList_object. by eexists.
  - by intros items ->.
  - intros props ->. apply normalizeList_object.
  - intros Harr Hobj. destruct response as [| |b|n|s|items|props]; try done.
    + by destruct b.
    + unfold normalizeList; cbn. by destruct (Z.eqb n 0).
    + unfold normalizeList; cbn. by destruct (String.eqb s "").
    + by destruct (Hobj props).
  - done.
Qed.

(** The shapes that the specification lists, on a sample array. *)
Lemma normalizeList_shapes_witness :
  let arr := [JNum 1; JStr "two"] in
  normalizeList (JArr arr) = inr arr
  /\ normalizeList (JObj {[ "rows" := JArr arr ]}) = inr arr
  /\ normalizeList (JObj {[ "data" := JArr arr ]}) = inr arr
  /\ normalizeList (JObj {[ "deployments" := JArr arr ]}) = inr arr
  /\ normalizeList (JObj {[ "data" := JObj {[ "rows" := JArr arr ]} ]}) = inr arr
  /\ normalizeList (JObj {[ "data" := JObj {[ "data" := JArr arr ]} ]}) = inr arr
  /\ normalizeList (JObj (<[ "rows" := JArr arr ]> {[ "data" := JArr [] ]})) = inr arr.
Proof.
  intros arr. split.
  - by apply (normalizeList_shapes (JArr arr)).
  - repeat split;
      match goal with
      | |- normalizeList ?v = _ =>
          destruct (normalizeList_shapes v) as (_ & _ & H & _);
          rewrite (H _ eq_refl); vm_compute; reflexivity
      end.
Defined.

End shapes.

(** ** Flattening projects into environments *)

Section flatten.
Import JS Filters Folds Examples.

Lemma foldl_push {A B : Type} (f : A -> B) (l : list A) (acc : list B) :
  foldl (fun items x => app items [f x]) acc l = app acc (map f l).
Proof.
  revert acc. induction l as [|x l IH]; intros acc; cbn.
  - by rewrite app_nil_r.
  - by rewrite IH, <- app_assoc.
Qed.

Lemma foldl_flat_push {A B : Type} (f : A -> list B) (l : list A) (acc : list B) :
  foldl (fun items x => app items (f x)) acc l = app acc (flat_map f l).
Proof.
  revert acc. induction l as [|x l IH]; intros acc; cbn.
  - by rewrite app_nil_r.
  - by rewrite IH, <- app_assoc.
Qed.

Lemma foldl_ext_eq {A B : Type} (f g : A -> B -> A) (l : list B) (a : A) :
  (forall a x, f a x = g a x) -> foldl f a l = foldl g a l.
Proof.
  intros E. revert a. induction l as [|x l IH]; intros a; cbn; [done|].
  by rewrite E, IH.
Qed.

(** The two nested loops produce, project after project, the enriched
    environments of each project in their order. *)
Lemma flattenEnvironments_flat_map (projects : list Project.t) :
  flattenEnvironments projects =
  flat_map
    (fun project =>
       map (enriched project) (default [] (Project.environments project)))
    projects.
Proof.
  unfold flattenEnvironments.
  rewrite <- (app_nil_l (flat_map _ _)), <- foldl_flat_push.
  apply foldl_ext_eq. intros items project.
  apply (foldl_push (enriched project)).
Qed.

(** Position by position, the output is made of the enriched environments
    of [nested]. *)
Lemma flattenEnvironments_nested (projects : list Project.t) :
  flattenEnvironments projects
  = map (fun source => enriched (fst source) (snd source)) (Notions.nested projects).
Proof.
  rewrite flattenEnvironments_flat_map. unfold Notions.nested.
  induction projects as [|project projects IH]; [done|]. cbn [flat_map].
  by rewrite map_app, <- IH, map_map.
Qed.

Lemma nested_In (projects : list Project.t) (project : Project.t)
    (environment : Environment.t) :
  In (project, environment) (Notions.nested projects) ->
  In project projects
  /\ In environment (default [] (Project.environments project)).
Proof.
  unfold Notions.nested.
  intros (p & Hp & (e & E & He)%in_map_iff)%in_flat_map.
  injection E as <- <-. done.
Qed.

(** C6, as amended.  The output of [flattenEnvironments] has one record for
    each environment of each project, in the order of the two loops, and the
    record at a position is made from the environment and the project at
    that position: it keeps the fields of that environment, and carries a
    [projectName] that is never absent, the name of that project or
    ["Unnamed Project"]; as [projectId] the normalised value of
    [project.id], or of [project.uuid] when [project.id] is [undefined] or
    [null], whenever that value is not blank, and otherwise the normalised
    reference of that environment ([project_id], or [project_uuid] when
    [project_id] is absent), which is the case in particular when the
    project has neither id nor uuid; and the uuid of that project, when it
    is not empty, as [projectUuid]. *)
Theorem flattenEnvironments_fields (projects : list Project.t) :
  length (flattenEnvironments projects) = length (Notions.nested projects)
  /\ forall (n : nat) (out : ProjectEnvironment.t),
       flattenEnvironments projects !! n = Some out ->
       exists project environment,
         Notions.nested projects !! n = Some (project, environment)
         /\ In project projects
         /\ In environment (default [] (Project.environments project))
         /\ Notions.environmentOf out = environment
         /\ (ProjectEnvironment.projectName out
               = Some (default "Unnamed Project" (Project.name project))
             /\ ProjectEnvironment.projectName out <> None
             /\ (Project.name project = None ->
                 ProjectEnvironment.projectName out = Some "Unnamed Project"))
         /\ (let own := toId (Project.id project ?? of_str (Project.uuid project)) in
             let reference :=
               toId (Environment.project_id environment
                     ?? of_str (Environment.project_uuid environment)) in
             (forall i, own = Some i -> ProjectEnvironment.projectId out = Some i)
             /\ (own = None -> ProjectEnvironment.projectId out = reference)
             /\ (nullish (Project.id project) = true -> Project.uuid project = None ->
                 ProjectEnvironment.projectId out = reference))
         /\ (Spec.present (Project.uuid project) ->
             ProjectEnvironment.projectUuid out = Project.uuid project)
         /\ (Spec.missing (Project.uuid project) ->
             ProjectEnvironment.projectUuid out = None).
Proof.
  rewrite flattenEnvironments_nested. split; [apply length_map|].
  intros n out Hn. rewrite list_lookup_fmap in Hn.
  destruct (Notions.nested projects !! n) as [[project environment]|] eqn:Hsrc;
    [|discriminate Hn].
  cbn in Hn. injection Hn as <-.
  exists project, environment. split; [done|].
  destruct (nested_In projects project environment) as [Hp He].
  { apply list_elem_of_In. by apply list_elem_of_lookup_2 in Hsrc. }
  split; [done|]. split; [done|].
  split; [by destruct environment|].
  cbn [enriched ProjectEnvironment.projectName ProjectEnvironment.projectId
         ProjectEnvironment.projectUuid].
  split; [|split; [|split]].
  - split; [done|]. split; [done|]. by intros ->.
  - cbv zeta. split; [by intros i ->|].
    assert (Href : forall o : option string, orElse o None = o) by (by intros []).
    split.
    + intros ->. cbn. apply Href.
    + intros Hid Huuid. unfold coalesce at 1. rewrite Hid, Huuid. cbn.
      apply Href.
  - intros H%truthy_present. by rewrite H.
  - intros H%truthy_missing. by rewrite H.
Qed.

(** On a project with everything and a project without id, uuid or name:
    the second record is made from the second project and its environment,
    not from the first project. *)
Lemma flattenEnvironments_fields_witness :
  let out := enriched anonymous orphan in
  flattenEnvironments [demo; anonymous] !! 1%nat = Some out
  /\ length (flattenEnvironments [demo; anonymous]) = 2%nat
  /\ Notions.environmentOf out = orphan
  /\ ProjectEnvironment.projectName out = Some "Unnamed Project"
  /\ ProjectEnvironment.projectId out = Some "7"
  /\ ProjectEnvironment.projectUuid out = None.
Proof.
  intros out.
  destruct (flattenEnvironments_fields [demo; anonymous]) as [Hlen Hout].
  destruct (Hout 1%nat out eq_refl)
    as (project & environment & Hsrc & _ & _ & Henv & (_ & _ & Hname) & (_ & _ & Hid)
        & _ & Huuid).
  injection Hsrc as <- <-.
  split; [reflexivity|]. split; [exact Hlen|]. split; [exact Henv|].
  split; [exact (Hname eq_refl)|]. split; [exact (Hid eq_refl eq_refl)|].
  exact (Huuid (or_introl eq_refl)).
Defined.

(** A blank [project.id] hides the uuid of the project: the project id of
    its environment is the reference 7 that the environment carries, not
    the uuid [p1] of the project. *)
Lemma flattenEnvironments_projectId_counterexample :
  toId (of_str (Project.uuid blankId)) = Some "p1"
  /\ Stated.projectIdAsStated blankId orphan = Some "p1"
  /\ flattenEnvironments [blankId] = [enriched blankId orphan]
  /\ ProjectEnvironment.projectId (enriched blankId orphan) = Some "7"
  /\ ProjectEnvironment.projectId (enriched blankId orphan)
     <> Stated.projectIdAsStated blankId orphan.
Proof. repeat split; try reflexivity. vm_compute. discriminate. Qed.

End flatten.

(** ** Lookup maps *)

Section builders.
Import JS Filters Folds.

Lemma setIf_toId {V : Type} (v : idval) (x : V) (m : gmap string V) :
  setIf (toId v) x m = match toId v with Some k => <[k := x]> m | None => m end.
Proof. unfold setIf. apply whenTruthy_toId. Qed.

Lemma addIf_toId (v : idval) (s : gset string) :
  addIf (toId v) s = match toId v with Some k => {[k]} ∪ s | None => s end.
Proof. unfold addIf. apply whenTruthy_toId. Qed.

Lemma hasKeyb_true (env : ProjectEnvironment.t) (k : string) :
  hasKeyb env k = true <-> hasKey env k.
Proof.
  unfold hasKeyb, hasKey. rewrite orb_true_iff, !bool_decide_eq_true. done.
Qed.

Lemma hasKey_nonempty (env : ProjectEnvironment.t) (k : string) :
  hasKey env k -> k <> "".
Proof. intros [H|H] ->; by apply toId_nonempty in H. Qed.

Section kv.
Context {V : Type}.
Variable valueOf : ProjectEnvironment.t -> option V.

Lemma writes_true (env : ProjectEnvironment.t) (k : string) :
  writes valueOf env k = true <-> is_Some (valueOf env) /\ hasKey env k.
Proof.
  unfold writes. destruct (valueOf env) as [v|].
  - rewrite hasKeyb_true. split; [by eauto|]. by intros [_ ?].
  - split; [done|]. by intros [[? [=]] _].
Qed.

(** One iteration overwrites the keys of the environment and nothing else. *)
Lemma kvStep_lookup (m : gmap string V) (env : ProjectEnvironment.t) (k : string) :
  kvStep valueOf m env !! k = if writes valueOf env k then valueOf env else m !! k.
Proof.
  unfold kvStep, writes, hasKeyb, envId, envUuid.
  destruct (valueOf env) as [v|]; [|done].
  rewrite !setIf_toId.
  destruct (toId (ProjectEnvironment.id env)) as [i|],
    (toId (of_str (ProjectEnvironment.uuid env))) as [u|];
    repeat case_bool_decide; simplify_eq; cbn;
    repeat first [rewrite lookup_insert_eq
                 |rewrite lookup_insert_ne by congruence];
    done.
Qed.

(** After the loop, a key holds what its last writer stored. *)
Lemma kvFold_lookup (envs : list ProjectEnvironment.t) (m : gmap string V)
    (k : string) :
  foldl (kvStep valueOf) m envs !! k =
  match lastWriter valueOf k envs with
  | Some w => valueOf w
  | None => m !! k
  end.
Proof.
  revert m. induction envs as [|env envs IH]; intros m; cbn; [done|].
  rewrite IH. destruct (lastWriter valueOf k envs); [done|].
  rewrite kvStep_lookup. by destruct (writes valueOf env k).
Qed.

Lemma lastWriter_Some (k : string) (envs : list ProjectEnvironment.t)
    (w : ProjectEnvironment.t) :
  lastWriter valueOf k envs = Some w -> In w envs /\ writes valueOf w k = true.
Proof.
  induction envs as [|env envs IH]; cbn; [done|].
  destruct (lastWriter valueOf k envs) as [w'|].
  - intros [= ->]. destruct IH as [? ?]; auto.
  - destruct (writes valueOf env k) eqn:E; [|done]. intros [= ->]. auto.
Qed.

Lemma lastWriter_None (k : string) (envs : list ProjectEnvironment.t) :
  lastWriter valueOf k envs = None <->
  forall env, In env envs -> writes valueOf env k = false.
Proof.
  induction envs as [|env envs IH]; cbn; [by split|].
  destruct (lastWriter valueOf k envs) as [w|] eqn:E.
  - split; [done|]. intros H. apply lastWriter_Some in E as [Hin Hw].
    rewrite H in Hw by auto. done.
  - destruct (writes valueOf env k) eqn:Ew.
    + split; [done|]. intros H. rewrite H in Ew by auto. done.
    + split; [|done]. intros _ e [<-|Hin]; [done|]. by apply IH.
Qed.

Lemma lastWriter_app (k : string) (l1 l2 : list ProjectEnvironment.t) :
  lastWriter valueOf k (l1 ++ l2) =
  match lastWriter valueOf k l2 with
  | Some w => Some w
  | None => lastWriter valueOf k l1
  end.
Proof.
  induction l1 as [|env l1 IH]; cbn.
  - by destruct (lastWriter valueOf k l2).
  - rewrite IH. by destruct (lastWriter valueOf k l2).
Qed.

(** Last write wins: an environment that writes under [k] and is followed
    by no other writer of [k] is the one whose value the map holds. *)
Lemma lastWriter_last (k : string) (pre post : list ProjectEnvironment.t)
    (env : ProjectEnvironment.t) :
  writes valueOf env k = true ->
  (forall later, In later post -> writes valueOf later k = false) ->
  lastWriter valueOf k (pre ++ env :: post) = Some env.
Proof.
  intros Hw Hpost. rewrite lastWriter_app. cbn.
  apply lastWriter_None in Hpost. by rewrite Hpost, Hw.
Qed.

Lemma kvFold_idempotent (envs : list ProjectEnvironment.t) :
  foldl (kvStep valueOf) ∅ (envs ++ envs) = foldl (kvStep valueOf) ∅ envs.
Proof.
  apply map_eq. intros k. rewrite !kvFold_lookup, lastWriter_app.
  by destruct (lastWriter valueOf k envs).
Qed.

(** When the writers of each key agree on its value, the order of the
    environments does not matter. *)
Lemma kvFold_permutation (envs envs' : list ProjectEnvironment.t) :
  Permutation envs envs' -> agree valueOf envs ->
  foldl (kvStep valueOf) ∅ envs = foldl (kvStep valueOf) ∅ envs'.
Proof.
  intros Hperm Hagree. apply map_eq. intros k. rewrite !kvFold_lookup.
  destruct (lastWriter valueOf k envs) as [w|] eqn:E,
    (lastWriter valueOf k envs') as [w'|] eqn:E'; [| | |done].
  - apply lastWriter_Some in E as [Hin Hw], E' as [Hin' Hw'].
    apply (Hagree w w' k); auto.
    eapply Permutation_in; [symmetry; exact Hperm|done].
  - apply lastWriter_Some in E as [Hin Hw].
    rewrite (proj1 (lastWriter_None k envs') E') in Hw; [done|].
    by eapply Permutation_in.
  - apply lastWriter_Some in E' as [Hin Hw].
    rewrite (proj1 (lastWriter_None k envs) E) in Hw; [done|].
    eapply Permutation_in; [symmetry; exact Hperm|done].
Qed.

End kv.

(** Each of the three key-value builders is the loop of [kvStep] for what
    it stores. *)
Lemma buildEnvToProjectMap_fold (envs : list ProjectEnvironment.t) :
  buildEnvToProjectMap envs = foldl (kvStep projectOf) ∅ envs.
Proof.
  unfold buildEnvToProjectMap. apply foldl_ext_eq. intros m env.
  rewrite whenTruthy_toId. reflexivity.
Qed.

Lemma buildEnvNameMap_fold (envs : list ProjectEnvironment.t) :
  buildEnvNameMap envs = foldl (kvStep (fun env => Some (nameOf env))) ∅ envs.
Proof. reflexivity. Qed.

Lemma buildEnvLookup_fold (envs : list ProjectEnvironment.t) :
  buildEnvLookup envs = foldl (kvStep Some) ∅ envs.
Proof. reflexivity. Qed.

Lemma buildEnvNameToIdsMap_fold (envs : list ProjectEnvironment.t) :
  buildEnvNameToIdsMap envs = foldl nameStep ∅ envs.
Proof. reflexivity. Qed.

End builders.

(** ** The map from environment names to key sets *)

Section name_sets.
Import JS Filters Folds.

Lemma size_zero_iff (s : gset string) : Nat.eqb (size s) 0 = true <-> s = ∅.
Proof. rewrite Nat.eqb_eq, size_empty_iff. apply leibniz_equiv_iff. Qed.

Lemma addIf_keySet (env : ProjectEnvironment.t) (s : gset string) :
  addIf (envUuid env) (addIf (envId env) s) = keySet env ∪ s.
Proof.
  unfold keySet, envUuid, envId. rewrite !addIf_toId.
  destruct (toId (of_str (ProjectEnvironment.uuid env))),
    (toId (ProjectEnvironment.id env)); set_solver.
Qed.

Lemma keySet_elem (env : ProjectEnvironment.t) (k : string) :
  k ∈ keySet env <-> hasKey env k.
Proof.
  unfold keySet, hasKey, envUuid, envId. rewrite !addIf_toId.
  destruct (toId (of_str (ProjectEnvironment.uuid env))),
    (toId (ProjectEnvironment.id env)); set_solver.
Qed.

(** One iteration adds the keys of the environment to the set of its name. *)
Lemma nameStep_lookup (m : gmap string (gset string))
    (env : ProjectEnvironment.t) (n : string) :
  nameStep m env !! n =
  if decide (nameOf env = n /\ keySet env <> ∅)
  then Some (default ∅ (m !! n) ∪ keySet env)
  else m !! n.
Proof.
  unfold nameStep. rewrite addIf_keySet.
  destruct (Nat.eqb (size (keySet env ∪ default ∅ (m !! nameOf env))) 0) eqn:E.
  - apply size_zero_iff in E. rewrite decide_False; [done|].
    intros [_ H]. apply H. set_solver.
  - destruct (decide (nameOf env = n)) as [<-|Hn].
    + rewrite lookup_insert_eq. case_decide as H.
      * f_equal. set_solver.
      * assert (Hk : keySet env = ∅).
        { destruct (decide (keySet env = ∅)); [done|]. by destruct H. }
        rewrite Hk, (left_id_L ∅ (∪)) in E |- *.
        destruct (m !! nameOf env) as [s|]; [done|].
        apply not_true_iff_false in E. destruct E. by apply size_zero_iff.
    + rewrite lookup_insert_ne by done. rewrite decide_False; [done|].
      by intros [? _].
Qed.

Lemma nameFold_lookup (envs : list ProjectEnvironment.t)
    (m : gmap string (gset string)) (n : string) :
  foldl nameStep m envs !! n =
  if decide (idsOf n envs = ∅) then m !! n
  else Some (default ∅ (m !! n) ∪ idsOf n envs).
Proof.
  revert m. induction envs as [|env envs IH]; intros m; cbn [foldl idsOf].
  - by rewrite decide_True.
  - rewrite IH, nameStep_lookup.
    destruct (String.eqb_spec (nameOf env) n) as [Hn|Hn].
    + destruct (decide (keySet env = ∅)) as [Hk|Hk].
      * rewrite Hk, (left_id_L ∅ (∪)).
        rewrite (decide_False (P := _ /\ _)) by (by intros [_ ?]). done.
      * rewrite (decide_True (P := _ /\ _)) by done. cbn [default].
        rewrite (decide_False (P := keySet env ∪ _ = ∅)) by set_solver.
        case_decide as Hi; f_equal; set_solver.
    + rewrite (left_id_L ∅ (∪)).
      rewrite (decide_False (P := _ /\ _)) by (by intros [? _]). done.
Qed.

(** A name is registered exactly when some environment so named has a key,
    and then with the keys of all the environments so named. *)
Lemma buildEnvNameToIdsMap_lookup (envs : list ProjectEnvironment.t) (n : string) :
  buildEnvNameToIdsMap envs !! n =
  if decide (idsOf n envs = ∅) then None else Some (idsOf n envs).
Proof.
  rewrite buildEnvNameToIdsMap_fold, nameFold_lookup, lookup_empty.
  case_decide; [done|]. cbn. f_equal. set_solver.
Qed.

Lemma idsOf_app (n : string) (l1 l2 : list ProjectEnvironment.t) :
  idsOf n (l1 ++ l2) = idsOf n l1 ∪ idsOf n l2.
Proof. induction l1 as [|env l1 IH]; cbn; [set_solver|]. rewrite IH. set_solver. Qed.

Lemma idsOf_permutation (n : string) (l1 l2 : list ProjectEnvironment.t) :
  Permutation l1 l2 -> idsOf n l1 = idsOf n l2.
Proof.
  induction 1 as [|env l1 l2 _ IH|e1 e2 l|l1 l2 l3 _ IH1 _ IH2]; cbn.
  - done.
  - by rewrite IH.
  - set_solver.
  - congruence.
Qed.

Lemma idsOf_elem (n : string) (envs : list ProjectEnvironment.t) (k : string) :
  k ∈ idsOf n envs <->
  exists env, In env envs /\ nameOf env = n /\ hasKey env k.
Proof.
  induction envs as [|env envs IH]; cbn.
  - split; [set_solver|]. by intros (? & [] & _).
  - rewrite elem_of_union, IH.
    destruct (String.eqb_spec (nameOf env) n) as [Hn|Hn].
    + rewrite keySet_elem. split.
      * intros [H|(e & ? & ? & ?)]; [exists env|exists e]; auto.
      * intros (e & [<-|?] & ? & ?); [by left|right; by exists e].
    + split.
      * intros [H|(e & ? & ? & ?)]; [set_solver|exists e; auto].
      * intros (e & [<-|?] & ? & ?); [done|right; by exists e].
Qed.

Lemma buildEnvNameToIdsMap_idempotent (envs : list ProjectEnvironment.t) :
  buildEnvNameToIdsMap (envs ++ envs) = buildEnvNameToIdsMap envs.
Proof.
  apply map_eq. intros n. rewrite !buildEnvNameToIdsMap_lookup, idsOf_app.
  by rewrite (idemp_L (∪)).
Qed.

Lemma buildEnvNameToIdsMap_permutation (envs envs' : list ProjectEnvironment.t) :
  Permutation envs envs' -> buildEnvNameToIdsMap envs = buildEnvNameToIdsMap envs'.
Proof.
  intros H. apply map_eq. intros n.
  by rewrite !buildEnvNameToIdsMap_lookup, (idsOf_permutation n _ _ H).
Qed.

(** No builder registers the empty string. *)
Lemma buildEnvNameToIdsMap_no_empty_key
    (envs : list ProjectEnvironment.t) (n : string) (ids : gset string) :
  buildEnvNameToIdsMap envs !! n = Some ids -> "" ∉ ids.
Proof.
  rewrite buildEnvNameToIdsMap_lookup. case_decide; [done|]. intros [= <-].
  intros (env & _ & _ & Hk)%idsOf_elem. by apply hasKey_nonempty in Hk.
Qed.

Lemma buildEnvToProjectMap_no_empty_key (envs : list ProjectEnvironment.t) :
  buildEnvToProjectMap envs !! "" = None.
Proof.
  rewrite buildEnvToProjectMap_fold, kvFold_lookup.
  destruct (lastWriter projectOf "" envs) as [w|] eqn:E; [|done].
  apply lastWriter_Some in E as [_ Hw]. apply writes_true in Hw as [_ Hk].
  by apply hasKey_nonempty in Hk.
Qed.

End name_sets.

(** ** Redundant keys, idempotence and order *)

Section lookup_claims.
Import JS Filters Folds Examples.

Lemma hasKey_writes {V : Type} (valueOf : ProjectEnvironment.t -> option V)
    (env : ProjectEnvironment.t) (k : string) :
  ~ hasKey env k -> writes valueOf env k = false.
Proof.
  intros H. apply not_true_iff_false. by intros [_ ?]%writes_true.
Qed.

(** Last write wins, for the three builders at once. *)
Lemma last_write_wins (pre post : list ProjectEnvironment.t)
    (env : ProjectEnvironment.t) (k : string) :
  hasKey env k ->
  (forall later, In later post -> ~ hasKey later k) ->
  buildEnvLookup (pre ++ env :: post) !! k = Some env
  /\ buildEnvNameMap (pre ++ env :: post) !! k = Some (nameOf env)
  /\ (forall p, projectOf env = Some p ->
        buildEnvToProjectMap (pre ++ env :: post) !! k = Some p).
Proof.
  intros Hk Hpost.
  rewrite buildEnvLookup_fold, buildEnvNameMap_fold, buildEnvToProjectMap_fold.
  rewrite !kvFold_lookup. repeat split.
  - rewrite lastWriter_last; [done| |by auto using hasKey_writes].
    apply writes_true. eauto.
  - rewrite lastWriter_last; [done| |by auto using hasKey_writes].
    apply writes_true. eauto.
  - intros p Hp.
    rewrite lastWriter_last; [done| |by auto using hasKey_writes].
    apply writes_true. eauto.
Qed.

Lemma written_is_Some {V : Type} (valueOf : ProjectEnvironment.t -> option V)
    (envs : list ProjectEnvironment.t) (env : ProjectEnvironment.t) (k : string) :
  In env envs -> writes valueOf env k = true ->
  is_Some (foldl (kvStep valueOf) ∅ envs !! k).
Proof.
  intros Hin Hw. rewrite kvFold_lookup.
  destruct (lastWriter valueOf k envs) as [w|] eqn:E.
  - apply lastWriter_Some in E as [_ [? _]%writes_true]. done.
  - rewrite (proj1 (lastWriter_None valueOf k envs) E env Hin) in Hw. done.
Qed.

(** C3, as amended.  For an environment of the sequence and each of its key
    forms (normalised id, normalised uuid): [buildEnvLookup] holds an entry
    under the key; [buildEnvToProjectMap] holds one provided the project id
    of the environment resolves; and when no later environment of the
    sequence has the same key, the entry of [buildEnvLookup] is the record
    of this environment and that of [buildEnvToProjectMap] is its project
    id, so that both key forms then lead to the same record and the same
    project id. *)
Theorem env_maps_keyed_by_id_and_uuid
    (pre post : list ProjectEnvironment.t) (env : ProjectEnvironment.t)
    (k : string) :
  let envs := (pre ++ env :: post)%list in
  hasKey env k ->
  is_Some (buildEnvLookup envs !! k)
  /\ (is_Some (projectOf env) -> is_Some (buildEnvToProjectMap envs !! k))
  /\ ((forall later, In later post -> ~ hasKey later k) ->
      buildEnvLookup envs !! k = Some env
      /\ (forall p, projectOf env = Some p ->
            buildEnvToProjectMap envs !! k = Some p)).
Proof.
  intros envs Hk.
  assert (Hin : In env envs) by (apply in_elt).
  split; [|split].
  - rewrite buildEnvLookup_fold. apply (written_is_Some Some envs env k Hin).
    apply writes_true. eauto.
  - intros Hp. rewrite buildEnvToProjectMap_fold.
    apply (written_is_Some projectOf envs env k Hin). by apply writes_true.
  - intros Hpost.
    destruct (last_write_wins pre post env k Hk Hpost) as (H1 & _ & H3). done.
Qed.

(** Both key forms of [staging], when [unassigned] comes before it. *)
Lemma env_maps_keyed_by_id_and_uuid_witness :
  hasKey staging "10" /\ hasKey staging "e1"
  /\ buildEnvLookup [unassigned; staging] !! "10" = Some staging
  /\ buildEnvLookup [unassigned; staging] !! "e1" = Some staging
  /\ buildEnvToProjectMap [unassigned; staging] !! "10" = Some "1"
  /\ buildEnvToProjectMap [unassigned; staging] !! "e1" = Some "1".
Proof.
  assert (H10 : hasKey staging "10") by (left; reflexivity).
  assert (He1 : hasKey staging "e1") by (right; reflexivity).
  destruct (env_maps_keyed_by_id_and_uuid [unassigned] [] staging "10" H10)
    as (_ & _ & Ha).
  destruct (env_maps_keyed_by_id_and_uuid [unassigned] [] staging "e1" He1)
    as (_ & _ & Hb).
  destruct Ha as [Ha1 Ha2]; [by intros ? []|].
  destruct Hb as [Hb1 Hb2]; [by intros ? []|].
  repeat split; auto.
Defined.

(** An environment without a resolvable project id has no entry in
    [buildEnvToProjectMap]; and when a later environment shares the id of
    an earlier one, the two key forms of the earlier one lead to different
    records. *)
Lemma env_maps_keyed_counterexample :
  ~ Stated.keyedByBothForms [unassigned]
  /\ ~ Stated.keyedByBothForms [staging; preview].
Proof.
  split; intros H.
  - destruct (H unassigned (or_introl eq_refl)) as [H1 _].
    destruct (H1 "30" (or_introl eq_refl)) as [_ [p Hp]].
    vm_compute in Hp. discriminate Hp.
  - destruct (H staging (or_introl eq_refl)) as [_ H2].
    destruct (H2 "10" "e1" (or_introl eq_refl) (or_intror eq_refl)) as [_ Hp].
    vm_compute in Hp. discriminate Hp.
Qed.

(** C5, as amended.  The four builders are idempotent: the environments
    taken twice give the same map as taken once.  [buildEnvNameToIdsMap]
    does not depend on the order of the environments.  The three other
    builders do not depend on it when the environments that write under a
    common key store the same value there; in general a key holds what the
    last environment that has this key stored (last write wins). *)
Theorem builders_idempotent_last_write_wins
    (envs envs' : list ProjectEnvironment.t) :
  (buildEnvToProjectMap (envs ++ envs) = buildEnvToProjectMap envs
   /\ buildEnvNameMap (envs ++ envs) = buildEnvNameMap envs
   /\ buildEnvLookup (envs ++ envs) = buildEnvLookup envs
   /\ buildEnvNameToIdsMap (envs ++ envs) = buildEnvNameToIdsMap envs)
  /\ (Permutation envs envs' ->
      buildEnvNameToIdsMap envs = buildEnvNameToIdsMap envs'
      /\ (agree projectOf envs ->
          buildEnvToProjectMap envs = buildEnvToProjectMap envs')
      /\ (agree (fun env => Some (nameOf env)) envs ->
          buildEnvNameMap envs = buildEnvNameMap envs')
      /\ (agree Some envs -> buildEnvLookup envs = buildEnvLookup envs'))
  /\ (forall pre env post k,
        envs = (pre ++ env :: post)%list ->
        hasKey env k ->
        (forall later, In later post -> ~ hasKey later k) ->
        buildEnvLookup envs !! k = Some env
        /\ buildEnvNameMap envs !! k = Some (nameOf env)
        /\ (forall p, projectOf env = Some p ->
              buildEnvToProjectMap envs !! k = Some p)).
Proof.
  split; [|split].
  - split; [|split; [|split]].
    + rewrite !buildEnvToProjectMap_fold. apply kvFold_idempotent.
    + apply (kvFold_idempotent (fun env => Some (nameOf env))).
    + apply (kvFold_idempotent Some).
    + apply buildEnvNameToIdsMap_idempotent.
  - intros Hperm. split; [by apply buildEnvNameToIdsMap_permutation|].
    split; [|split]; intros Hagree.
    + rewrite !buildEnvToProjectMap_fold. by apply kvFold_permutation.
    + by apply (kvFold_permutation (fun env => Some (nameOf env))).
    + by apply (kvFold_permutation Some).
  - intros pre env post k -> Hk Hpost. by apply last_write_wins.
Qed.

(** [staging] and [preview] share the key 10: the later one wins, and the
    order of the two matters. *)
Lemma builders_order_counterexample :
  Permutation [staging; preview] [preview; staging]
  /\ buildEnvToProjectMap [staging; preview] !! "10" = Some "2"
  /\ buildEnvToProjectMap [preview; staging] !! "10" = Some "1"
  /\ ~ Stated.orderIndependent [staging; preview] [preview; staging].
Proof.
  split; [apply perm_swap|]. split; [reflexivity|]. split; [reflexivity|].
  intros H. destruct (H (perm_swap _ _ _)) as [Hp _].
  apply (f_equal (fun m => m !! "10")) in Hp. vm_compute in Hp. discriminate Hp.
Qed.

(** [unassigned] and [staging] have no key in common, so that their order
    does not matter; and of [staging] and [preview], which share the key
    10, the later one is found. *)
Lemma builders_idempotent_last_write_wins_witness :
  Permutation [unassigned; staging] [staging; unassigned]
  /\ agree Some [unassigned; staging]
  /\ buildEnvLookup [unassigned; staging] = buildEnvLookup [staging; unassigned]
  /\ buildEnvLookup [staging; preview] !! "10" = Some preview.
Proof.
  assert (Hperm : Permutation [unassigned; staging] [staging; unassigned])
    by apply perm_swap.
  assert (Hagree : agree Some [unassigned; staging]).
  { intros e1 e2 k [<-|[<-|[]]] [<-|[<-|[]]]; try done;
      intros [_ [H|H]]%writes_true [_ [H'|H']]%writes_true;
      vm_compute in H, H'; congruence. }
  split; [exact Hperm|]. split; [exact Hagree|]. split.
  - destruct (builders_idempotent_last_write_wins [unassigned; staging]
                [staging; unassigned]) as (_ & Horder & _).
    by apply Horder.
  - destruct (builders_idempotent_last_write_wins [staging; preview] [])
      as (_ & _ & Hlast).
    apply (Hlast [staging] preview [] "10" eq_refl).
    + left. reflexivity.
    + by intros later [].
Defined.

End lookup_claims.

(** ** Selectors ["project:<id>"] and ["env:<name>"] *)

Section selectors.
Import JS Filters Folds Examples.

Lemma filter_bool_decide {A : Type} (P : A -> Prop) `{!forall x, Decision (P x)}
    (l : list A) :
  List.filter (fun x => bool_decide (P x)) l = filter P l.
Proof.
  induction l as [|x l IH]; [done|]. cbn [List.filter]. rewrite filter_cons, IH.
  case_bool_decide; by case_decide.
Qed.

Lemma project_not_all (p : string) : String.eqb ("project:" +:+ p) "all" = false.
Proof. reflexivity. Qed.

Lemma project_not_status (p : string) :
  String.eqb ("project:" +:+ p) "status:active" = false.
Proof. reflexivity. Qed.

Lemma project_not_env (p : string) : startsWith ("project:" +:+ p) "env:" = false.
Proof. reflexivity. Qed.

Lemma env_not_all (n : string) : String.eqb ("env:" +:+ n) "all" = false.
Proof. reflexivity. Qed.

(** Rewrites the tests that [applyFilter] makes on a selector. *)
Ltac selector :=
  rewrite ?project_not_all, ?project_not_status, ?project_not_env, ?env_not_all,
    ?startsWith_append, ?replace_prefix.

(** C8, as amended.  With the selector ["project:p"], [applyFilter] returns
    the items whose resolved environment id is mapped to [p] by
    [envToProjectMap], in their order: in the unified list, in the lists of
    databases and of services, in the list of deployments, and in the list
    of applications when [hasEnvMapping] is set.  When [hasEnvMapping] is
    not set, the list of applications is returned as it is. *)
Theorem applyFilter_project_sublist (p : string)
    (envToProjectMap appIdToEnvId : gmap string string)
    (envNameToIds : gmap string (gset string)) :
  (forall items,
     SearchResources.applyFilter items ("project:" +:+ p) envToProjectMap
       envNameToIds
     = filter
         (fun item =>
            envToProjectMap !! default "" (ResourceItem.environmentId item)
            = Some p)
         items)
  /\ (forall items,
        SearchDatabases.applyFilter items ("project:" +:+ p) envToProjectMap
          envNameToIds
        = filter
            (fun item =>
               envToProjectMap !! String_ (Database.environment_id item ?? Str "")
               = Some p)
            items)
  /\ (forall items,
        SearchServices.applyFilter items ("project:" +:+ p) envToProjectMap
          envNameToIds
        = filter
            (fun item =>
               envToProjectMap !! String_ (Service.environment_id item ?? Str "")
               = Some p)
            items)
  /\ (forall items,
        SearchDeployments.applyFilter items ("project:" +:+ p) envToProjectMap
          envNameToIds appIdToEnvId
        = filter
            (fun item =>
               envToProjectMap
                 !! SearchDeployments.resolveEnvId item appIdToEnvId
                      (SearchDeployments.resolveAppKey item)
               = Some p)
            items)
  /\ (forall items,
        SearchApplications.applyFilter items ("project:" +:+ p) envToProjectMap
          true envNameToIds
        = filter
            (fun item =>
               envToProjectMap
                 !! String_ (Application.environment_id item ?? Str "")
               = Some p)
            items)
  /\ (forall items,
        SearchApplications.applyFilter items ("project:" +:+ p) envToProjectMap
          false envNameToIds
        = items).
Proof.
  repeat split; intros items.
  - unfold SearchResources.applyFilter. selector. apply filter_bool_decide.
  - unfold SearchDatabases.applyFilter. selector. apply filter_bool_decide.
  - unfold SearchServices.applyFilter. selector. apply filter_bool_decide.
  - unfold SearchDeployments.applyFilter. selector.
    apply (filter_bool_decide
             (fun item =>
                envToProjectMap
                  !! SearchDeployments.resolveEnvId item appIdToEnvId
                       (SearchDeployments.resolveAppKey item)
                = Some p)).
  - unfold SearchApplications.applyFilter. selector. apply filter_bool_decide.
  - unfold SearchApplications.applyFilter. by selector.
Qed.

(** Without an environment mapping, the list of applications ignores the
    project selector: an application of environment 10, which no project
    owns, is returned for ["project:1"]. *)
Lemma applyFilter_project_counterexample :
  let item := appWith None (Num 10) in
  let envToProjectMap : gmap string string := ∅ in
  SearchApplications.applyFilter [item] "project:1" envToProjectMap false ∅
  = [item]
  /\ filter
       (fun item =>
          envToProjectMap !! String_ (Application.environment_id item ?? Str "")
          = Some "1")
       [item]
     = []
  /\ SearchApplications.applyFilter [item] "project:1" envToProjectMap false ∅
     <> filter
          (fun item =>
             envToProjectMap
               !! String_ (Application.environment_id item ?? Str "")
             = Some "1")
          [item].
Proof. split; [reflexivity|]. split; [reflexivity|]. discriminate. Qed.





End selectors.

(** ** End-to-end scenarios *)

Section scenarios.
Import JS Filters Folds Examples.

(** One project with one environment and one application: the selector
    ["project:1"] returns the application, and its resource URL is the one
    expected. *)
Example scenario_project :
  let environments := flattenEnvironments [demo] in
  let envToProjectMap := buildEnvToProjectMap environments in
  let envLookup := buildEnvLookup environments in
  SearchApplications.applyFilter [web] "project:1" envToProjectMap true
    (buildEnvNameToIdsMap environments) = [web]
  /\ Resources.getPrimaryUrl web = Some "https://web.example.com"
  /\ exists envInfo,
       envLookup !! String_ (Application.environment_id web ?? Str "")
       = Some envInfo
       /\ SearchResources.resolveResourceUrl "https://instance"
            (ProjectEnvironment.projectUuid envInfo)
            (ProjectEnvironment.uuid envInfo) (Application.uuid web)
            ResourceType.application
          = Some "https://instance/project/p1/environment/e1/application/a1".
Proof.
  split; [reflexivity|]. split; [reflexivity|].
  eexists. split; reflexivity.
Qed.

(** Two environments called staging in two projects: the selector
    ["env:staging"] returns the databases of both. *)
Example scenario_shared_name :
  let environments := [stagingOf 10 "e1" "1"; stagingOf 20 "e2" "2"] in
  let databases := [dbWith (Num 10) None; dbWith (Str "20") None;
                    dbWith (Num 30) None] in
  SearchDatabases.applyFilter databases "env:staging"
    (buildEnvToProjectMap environments) (buildEnvNameToIdsMap environments)
  = [dbWith (Num 10) None; dbWith (Str "20") None].
Proof. reflexivity. Qed.

End scenarios.

(** * Further properties *)

(** ** More on strings *)

Section more_strings.
Import JS.

Lemma append_assoc (s t u : string) : (s +:+ t) +:+ u = s +:+ (t +:+ u).
Proof.
  induction s as [|c s IH]; [done|]. by rewrite !String_append, IH.
Qed.

Lemma length_append (s t : string) :
  String.length (s +:+ t) = String.length s + String.length t.
Proof. induction s as [|c s IH]; [done|]. rewrite String_append. cbn. by rewrite IH. Qed.

Lemma take_drop (n : nat) (s : string) : takeString n s +:+ dropString n s = s.
Proof.
  revert s. induction n as [|n IH]; intros [|c s]; try done.
  cbn [takeString dropString]. by rewrite String_append, IH.
Qed.

Lemma trimStart_id (s : string) :
  (forall c, Spec.firstChar s = Some c -> isWhiteSpace c = false) ->
  trimStart s = s.
Proof. destruct s as [|c s]; [done|]. intros H. cbn. by rewrite (H c). Qed.

Lemma trimEnd_id (s : string) :
  (forall c, Spec.lastChar s = Some c -> isWhiteSpace c = false) ->
  trimEnd s = s.
Proof.
  induction s as [|c s IH]; [done|]. intros H. cbn [trimEnd].
  destruct s as [|d s].
  - cbn. by rewrite (H c).
  - rewrite IH; [done|]. intros e He. by apply H.
Qed.

(** A string that neither starts nor ends with white space is its own
    trimmed form. *)
Lemma trim_id (s : string) :
  (forall c, Spec.firstChar s = Some c \/ Spec.lastChar s = Some c ->
             isWhiteSpace c = false) ->
  trim s = s.
Proof.
  intros H. unfold trim. rewrite trimStart_id by auto. apply trimEnd_id. auto.
Qed.

Lemma trim_idempotent (s : string) : trim (trim s) = trim s.
Proof. apply trim_id. apply trim_ends. Qed.

Lemma stripTrailingSlashes_id (s : string) :
  Spec.lastChar s <> Some "/"%char -> stripTrailingSlashes s = s.
Proof.
  induction s as [|c s IH]; [done|]. intros H. cbn [stripTrailingSlashes].
  destruct (allChars isSlash (String c s)) eqn:E.
  - exfalso. apply H. clear IH H. revert c E.
    induction s as [|d s IH]; intros c E.
    + cbn in *. rewrite andb_true_r in E. apply Ascii.eqb_eq in E. by subst.
    + apply (IH d). cbn in E |- *. by apply andb_prop in E as [_ ?].
  - f_equal. destruct s as [|d s]; [done|]. by apply IH.
Qed.

Lemma stripTrailingSlashes_first (s : string) :
  stripTrailingSlashes s <> "" ->
  Spec.firstChar (stripTrailingSlashes s) = Spec.firstChar s.
Proof.
  destruct s as [|c s]; [done|]. cbn [stripTrailingSlashes].
  by destruct (allChars isSlash (String c s)).
Qed.

Lemma firstChar_append (s t : string) :
  s <> "" -> Spec.firstChar (s +:+ t) = Spec.firstChar s.
Proof. by destruct s. Qed.

Lemma lastChar_append (s t : string) :
  t <> "" -> Spec.lastChar (s +:+ t) = Spec.lastChar t.
Proof.
  intros Ht. induction s as [|c s IH]; [done|]. rewrite String_append.
  cbn [Spec.lastChar]. destruct (s +:+ t) eqn:E; [|done].
  destruct s; [|done]. by destruct t.
Qed.

Lemma endsWith_append (s suffix : string) : endsWith (s +:+ suffix) suffix = true.
Proof.
  unfold endsWith. rewrite length_append.
  replace (String.length s + String.length suffix - String.length suffix)
    with (String.length s) by lia.
  rewrite dropString_append, String.eqb_refl, andb_true_r.
  apply Nat.leb_le. lia.
Qed.

Lemma endsWith_true (s suffix : string) :
  endsWith s suffix = true ->
  s = takeString (String.length s - String.length suffix) s +:+ suffix.
Proof.
  unfold endsWith. intros [_ H%String.eqb_eq]%andb_prop.
  transitivity
    (takeString (String.length s - String.length suffix) s
     +:+ dropString (String.length s - String.length suffix) s).
  - symmetry. apply take_drop.
  - by rewrite H.
Qed.

Lemma takeString_append (s t : string) : takeString (String.length s) (s +:+ t) = s.
Proof.
  induction s as [|c s IH]; [by destruct t|]. rewrite String_append. cbn.
  by rewrite IH.
Qed.

Lemma prefix_weaken (p s t : string) :
  String.prefix p s = true -> String.prefix p (s +:+ t) = true.
Proof.
  revert s. induction p as [|c p IH]; intros [|d s]; try done.
  - by destruct t.
  - rewrite String_append. cbn [String.prefix].
    destruct (ascii_dec c d); [apply IH|done].
Qed.

Lemma includes_prefix (s sub : string) :
  String.prefix sub s = true -> includes s sub = true.
Proof. intros H. destruct s; cbn [includes]; by rewrite H. Qed.

(** A string includes each of its substrings. *)
Lemma includes_middle (pre sub post : string) :
  includes (pre +:+ sub +:+ post) sub = true.
Proof.
  induction pre as [|c pre IH].
  - change ("" +:+ sub +:+ post) with (sub +:+ post).
    apply includes_prefix. apply prefix_append.
  - rewrite String_append. cbn [includes].
    by destruct (String.prefix sub (String c (pre +:+ sub +:+ post))).
Qed.

Lemma includes_nil (s : string) : includes s "" = true.
Proof. by destruct s. Qed.

Lemma toLowerCase_append (s t : string) :
  toLowerCase (s +:+ t) = toLowerCase s +:+ toLowerCase t.
Proof.
  induction s as [|c s IH]; [done|]. rewrite String_append. cbn [toLowerCase].
  by rewrite IH, String_append.
Qed.

End more_strings.

(** ** Normalising twice *)

Section normalise_twice.
Import JS Filters.

(** X1. A normalised identifier is stable: normalising it again, as a
    string, gives it back. *)
Theorem toId_idempotent (v : idval) (s : string) :
  toId v = Some s -> toId (Str s) = Some s.
Proof.
  intros (-> & Hne & _)%toId_Some. unfold toId. cbn [nullish String_].
  rewrite trim_idempotent. by destruct (trim (String_ v)).
Qed.

Lemma toId_idempotent_witness :
  toId (Str "  e1 ") = Some "e1" /\ toId (Str "e1") = Some "e1".
Proof.
  split; [reflexivity|]. apply (toId_idempotent (Str "  e1 ")). reflexivity.
Defined.

End normalise_twice.

(** ** Base URL and instance URL *)

Section client.
Import JS Client.

Lemma normalizeBaseUrl_cases (input : string) :
  normalizeBaseUrl input = DEFAULT_BASE_URL
  \/ exists trimmed,
       trimmed <> ""
       /\ trimmed = stripTrailingSlashes (trim input)
       /\ (normalizeBaseUrl input = trimmed /\ endsWith trimmed "/api/v1" = true
           \/ normalizeBaseUrl input = trimmed +:+ "/api/v1").
Proof.
  unfold normalizeBaseUrl.
  destruct (String.eqb_spec (stripTrailingSlashes (trim input)) "") as [E|E];
    [by left|].
  right. eexists. split; [exact E|]. split; [done|].
  destruct (endsWith _ "/api/v1") eqn:Ee; auto.
Qed.

(** X2. Whatever the preference holds, the base URL ends with [/api/v1]; and
    a blank preference gives the base URL of Coolify Cloud. *)
Theorem normalizeBaseUrl_api_suffix (input : string) :
  endsWith (normalizeBaseUrl input) "/api/v1" = true
  /\ (allChars isWhiteSpace input = true ->
      normalizeBaseUrl input = DEFAULT_BASE_URL).
Proof.
  split.
  - destruct (normalizeBaseUrl_cases input)
      as [->|(t & _ & _ & [[-> H]| ->])]; [done|done|apply endsWith_append].
  - intros H%trim_blank. unfold normalizeBaseUrl. by rewrite H.
Qed.

Lemma normalizeBaseUrl_fixpoint (r : string) :
  r <> "" ->
  (forall c, Spec.firstChar r = Some c -> isWhiteSpace c = false) ->
  endsWith r "/api/v1" = true ->
  normalizeBaseUrl r = r.
Proof.
  intros Hne Hfirst Hends.
  assert (Hlast : Spec.lastChar r = Some "1"%char).
  { rewrite (endsWith_true _ _ Hends). by rewrite lastChar_append. }
  unfold normalizeBaseUrl.
  rewrite trim_id, stripTrailingSlashes_id.
  - destruct (String.eqb_spec r ""); [done|]. by rewrite Hends.
  - by rewrite Hlast.
  - intros c [H|H]; [by apply Hfirst|]. rewrite Hlast in H. by injection H as <-.
Qed.

(** X3. Normalising a base URL that is already normalised changes nothing. *)
Theorem normalizeBaseUrl_idempotent (input : string) :
  normalizeBaseUrl (normalizeBaseUrl input) = normalizeBaseUrl input.
Proof.
  destruct (normalizeBaseUrl_cases input) as [->|(t & Hne & Ht & Hcase)]; [done|].
  assert (Hfirst : forall c, Spec.firstChar t = Some c -> isWhiteSpace c = false).
  { intros c. rewrite Ht, stripTrailingSlashes_first by (by rewrite <- Ht).
    intros H. apply (trim_ends input). by left. }
  destruct Hcase as [[-> Hends]| ->].
  - by apply normalizeBaseUrl_fixpoint.
  - apply normalizeBaseUrl_fixpoint.
    + by destruct t.
    + intros c. rewrite firstChar_append by done. apply Hfirst.
    + apply endsWith_append.
Qed.

Lemma getInstanceUrl_append (s : string) : getInstanceUrl (s +:+ "/api/v1") = s.
Proof.
  unfold getInstanceUrl, replaceAtEnd. rewrite endsWith_append, length_append.
  replace (String.length s + String.length "/api/v1" - String.length "/api/v1")
    with (String.length s) by lia.
  rewrite append_nil_r. apply takeString_append.
Qed.

(** X4. The instance URL is the base URL without its [/api/v1]: putting the
    suffix back gives the base URL, and the instance URL of a base URL that
    does not end with the suffix is the base URL itself. *)
Theorem getInstanceUrl_round_trip (input baseUrl : string) :
  getInstanceUrl (normalizeBaseUrl input) +:+ "/api/v1" = normalizeBaseUrl input
  /\ getInstanceUrl (baseUrl +:+ "/api/v1") = baseUrl
  /\ (endsWith baseUrl "/api/v1" = false -> getInstanceUrl baseUrl = baseUrl).
Proof.
  split; [|split].
  - destruct (normalizeBaseUrl_api_suffix input) as [H _].
    rewrite (endsWith_true _ _ H) at 1. rewrite getInstanceUrl_append.
    symmetry. by apply endsWith_true.
  - apply getInstanceUrl_append.
  - intros H. unfold getInstanceUrl, replaceAtEnd. by rewrite H.
Qed.

End client.

(** ** Fetching the environments of the projects *)

Section fetch.
Import JS Filters Folds Client Notions.

Variable requestJson : string -> option (list Environment.t).

Lemma promiseAll_map_Some {A B : Type} (f : A -> option B) (g : A -> B)
    (l : list A) :
  (forall x, In x l -> f x = Some (g x)) ->
  promiseAll (map f l) = Some (map g l).
Proof.
  induction l as [|x l IH]; intros H; cbn; [done|].
  rewrite (H x) by (by left). rewrite IH; [done|]. intros y Hy. apply H. by right.
Qed.

Lemma promiseAll_map_None {A B : Type} (f : A -> option B) (l : list A) :
  (exists x, In x l /\ f x = None) -> promiseAll (map f l) = None.
Proof.
  induction l as [|x l IH]; intros (y & Hy & E); cbn; [done|].
  destruct (f x) eqn:Ex; [|done].
  rewrite IH; [done|]. destruct Hy as [->|Hy]; [congruence|]. by exists y.
Qed.

Lemma fetch_requests (projects : list Project.t) :
  flat_map
    (fun project =>
       if String.eqb (default "" (Project.uuid project)) "" then []
       else
         [ match requestJson ("/projects/" +:+ default "" (Project.uuid project)
                              +:+ "/environments") with
           | Some envs => Some (map (tagged project) envs)
           | None => None
           end ])
    projects
  = map (fun project =>
           map (tagged project) <$> requestJson (environmentsPath project))
      (asked projects).
Proof.
  induction projects as [|project projects IH]; [done|].
  cbn [flat_map asked List.filter]. fold (asked projects). rewrite IH.
  unfold truthy, environmentsPath.
  destruct (Project.uuid project) as [[|c u]|] eqn:E; cbn; rewrite ?E; cbn;
    done.
Qed.

(** X5. Only the projects with a uuid are asked for.  When every request
    succeeds, the environments come in the order of the projects, each
    tagged with its project; when one request fails, the whole fetch
    fails. *)
Theorem fetchProjectEnvironments_all_or_nothing (projects : list Project.t) :
  ((forall project, In project (asked projects) ->
      is_Some (requestJson (environmentsPath project))) ->
   fetchProjectEnvironments requestJson projects
   = Some (flat_map
             (fun project =>
                map (tagged project)
                  (default [] (requestJson (environmentsPath project))))
             (asked projects)))
  /\ ((exists project, In project (asked projects)
                       /\ requestJson (environmentsPath project) = None) ->
      fetchProjectEnvironments requestJson projects = None).
Proof.
  unfold fetchProjectEnvironments. cbv zeta. rewrite fetch_requests. split.
  - intros Hall.
    rewrite (promiseAll_map_Some _
               (fun project =>
                  map (tagged project)
                    (default [] (requestJson (environmentsPath project))))).
    + destruct (asked projects) as [|p l]; [done|]. cbn [length map Nat.eqb].
      f_equal. by rewrite flat_map_concat_map.
    + intros project [envs E]%Hall. by rewrite E.
  - intros (project & Hin & E).
    rewrite promiseAll_map_None; [|exists project; by rewrite E].
    destruct (asked projects); [done|]. done.
Qed.

Lemma toId_of_String (v : idval) :
  nullish v = false -> toId (Str (String_ v)) = toId v.
Proof. unfold toId. by intros ->. Qed.

(** X6. The environments fetched for a project are registered by
    [buildEnvToProjectMap] under the project id that the dropdown offers
    for this project, which is the normalised [project.id ?? project.uuid];
    except for a project whose id is the number 0, whose environments are
    registered under its normalised uuid. *)
Theorem fetched_project_id_is_selector_id
    (project : Project.t) (env : Environment.t) (selector : string) :
  truthy (Project.uuid project) = true ->
  toId (Project.id project ?? of_str (Project.uuid project)) = Some selector ->
  (Project.id project <> Num 0 ->
   projectOf (tagged project env) = Some selector
   /\ forall pre post k,
        hasKey (tagged project env) k ->
        (forall later, In later post -> ~ hasKey later k) ->
        buildEnvToProjectMap (pre ++ tagged project env :: post) !! k
        = Some selector)
  /\ (Project.id project = Num 0 ->
      projectOf (tagged project env) = toId (of_str (Project.uuid project))).
Proof.
  intros Hu Hsel.
  cut ((Project.id project <> Num 0 ->
        projectOf (tagged project env) = Some selector)
       /\ (Project.id project = Num 0 ->
           projectOf (tagged project env) = toId (of_str (Project.uuid project)))).
  { intros [H1 H2]. split; [|done]. intros Hid. split; [by apply H1|].
    intros pre post k Hk Hpost.
    destruct (last_write_wins pre post _ k Hk Hpost) as (_ & _ & H3).
    by apply H3, H1. }
  unfold projectOf.
  cbn [tagged ProjectEnvironment.projectId ProjectEnvironment.project_uuid
         ProjectEnvironment.project_id].
  destruct (Project.uuid project) as [u|] eqn:Eu; [|done].
  split.
  - intros Hid. unfold coalesce in *.
    destruct (Project.id project) as [| |n|s] eqn:Ei;
      cbn [of_str nullish truthyId] in *.
    + done.
    + done.
    + destruct (Z.eqb_spec n 0) as [->|Hn]; [done|]. cbn [negb of_str nullish].
      by rewrite (toId_of_String (Num n)).
    + destruct s as [|c s]; [done|]. done.
  - intros ->. reflexivity.
Qed.

End fetch.

Section fetch_witnesses.
Import JS Filters Folds Client Examples.

Lemma fetched_project_id_is_selector_id_witness :
  projectOf (tagged demo production) = Some "1".
Proof.
  destruct (fetched_project_id_is_selector_id demo production "1") as [H _];
    [reflexivity|reflexivity|]. by destruct H.
Defined.

(** The server lists [production] for the demo project; the project without
    uuid is not asked for. *)
Lemma fetchProjectEnvironments_all_or_nothing_witness :
  let requestJson path :=
    if String.eqb path "/projects/p1/environments" then Some [production]
    else None in
  fetchProjectEnvironments requestJson [anonymous; demo]
  = Some [tagged demo production].
Proof.
  intros requestJson.
  destruct (fetchProjectEnvironments_all_or_nothing requestJson [anonymous; demo])
    as [H _].
  rewrite H; [reflexivity|]. intros project [<-|[]]. by eexists.
Defined.

End fetch_witnesses.

(** ** The unified list and its selectors *)

Section unified.
Import JS Filters Folds Resources Notions.

Lemma filter_map {A B : Type} (f : B -> bool) (g : A -> B) (l : list A) :
  List.filter f (map g l) = map g (List.filter (fun x => f (g x)) l).
Proof.
  induction l as [|x l IH]; [done|]. cbn. destruct (f (g x)); cbn; by rewrite IH.
Qed.

Lemma filter_none {A : Type} (f : A -> bool) (l : list A) :
  (forall x, In x l -> f x = false) -> List.filter f l = [].
Proof.
  induction l as [|x l IH]; [done|]. intros H. cbn.
  rewrite (H x) by (by left). apply IH. intros y Hy. apply H. by right.
Qed.

Lemma filter_every {A : Type} (f : A -> bool) (l : list A) :
  (forall x, In x l -> f x = true) -> List.filter f l = l.
Proof.
  induction l as [|x l IH]; [done|]. intros H. cbn.
  rewrite (H x) by (by left). f_equal. apply IH. intros y Hy. apply H. by right.
Qed.

Lemma sublist_filter {A : Type} (f : A -> bool) (l : list A) :
  sublist (List.filter f l) l.
Proof.
  induction l as [|x l IH]; cbn; [constructor|].
  destruct (f x); by constructor.
Qed.

Lemma type_not_all (t : string) : String.eqb ("type:" +:+ t) "all" = false.
Proof. reflexivity. Qed.

Lemma type_not_project (t : string) :
  startsWith ("type:" +:+ t) "project:" = false.
Proof. reflexivity. Qed.

Lemma type_not_env (t : string) : startsWith ("type:" +:+ t) "env:" = false.
Proof. reflexivity. Qed.

Lemma env_not_project (n : string) :
  startsWith ("env:" +:+ n) "project:" = false.
Proof. reflexivity. Qed.

Lemma applyFilter_type (items : list ResourceItem.t) (t : string)
    (envToProjectMap : gmap string string)
    (envNameToIds : gmap string (gset string)) :
  SearchResources.applyFilter items ("type:" +:+ t) envToProjectMap envNameToIds
  = List.filter
      (fun item => String.eqb (ResourceType.tag (ResourceItem.type item)) t)
      items.
Proof.
  unfold SearchResources.applyFilter.
  by rewrite type_not_all, type_not_project, type_not_env, startsWith_append,
    replace_prefix.
Qed.

(** X7. The selectors ["type:application"], ["type:service"] and
    ["type:database"] give back the three parts of which [buildResources]
    makes the unified list, and a type selector with any other tag gives
    nothing. *)
Theorem type_selector_splits_unified_list
    (apps : list Application.t) (services : list Service.t)
    (databases : list Database.t)
    (envToProjectMap : gmap string string)
    (envNameToIds : gmap string (gset string)) :
  let resources := buildResources apps services databases in
  SearchResources.applyFilter resources "type:application" envToProjectMap
    envNameToIds = buildResources apps [] []
  /\ SearchResources.applyFilter resources "type:service" envToProjectMap
       envNameToIds = buildResources [] services []
  /\ SearchResources.applyFilter resources "type:database" envToProjectMap
       envNameToIds = buildResources [] [] databases
  /\ (forall t, t <> "application" -> t <> "service" -> t <> "database" ->
        SearchResources.applyFilter resources ("type:" +:+ t) envToProjectMap
          envNameToIds = []).
Proof.
  intros resources. unfold resources, buildResources. cbn [map].
  rewrite !app_nil_r.
  repeat split.
  - rewrite (applyFilter_type _ "application"), !List.filter_app, !filter_map.
    rewrite filter_every by done. rewrite !filter_none by done.
    by rewrite !app_nil_r.
  - rewrite (applyFilter_type _ "service"), !List.filter_app, !filter_map.
    rewrite (filter_every _ services) by done. rewrite !filter_none by done.
    by rewrite !app_nil_r.
  - rewrite (applyFilter_type _ "database"), !List.filter_app, !filter_map.
    rewrite (filter_every _ databases) by done. rewrite !filter_none by done.
    done.
  - intros t Ha Hs Hd. rewrite applyFilter_type. apply filter_none.
    intros item _. destruct (ResourceItem.type item); cbn [ResourceType.tag];
      apply String.eqb_neq; congruence.
Qed.

(** X8. On the unified list the selectors ["project:<id>"] and
    ["env:<name>"] act on each source list by the environment id that
    [buildResources] resolves for the record: its [environment_id], or else
    its [environment_uuid]. *)
Theorem unified_selectors_resolve_id_then_uuid
    (apps : list Application.t) (services : list Service.t)
    (databases : list Database.t) (p n : string)
    (envToProjectMap : gmap string string)
    (envNameToIds : gmap string (gset string)) :
  let resources := buildResources apps services databases in
  SearchResources.applyFilter resources ("project:" +:+ p) envToProjectMap
    envNameToIds
  = buildResources
      (filter (fun app => envToProjectMap !! applicationKey app = Some p) apps)
      (filter (fun service => envToProjectMap !! serviceKey service = Some p)
         services)
      (filter (fun database => envToProjectMap !! databaseKey database = Some p)
         databases)
  /\ (forall ids, envNameToIds !! n = Some ids ->
        SearchResources.applyFilter resources ("env:" +:+ n) envToProjectMap
          envNameToIds
        = buildResources
            (filter (fun app => applicationKey app ∈ ids) apps)
            (filter (fun service => serviceKey service ∈ ids) services)
            (filter (fun database => databaseKey database ∈ ids) databases))
  /\ (envNameToIds !! n = None ->
      SearchResources.applyFilter resources ("env:" +:+ n) envToProjectMap
        envNameToIds = []).
Proof.
  intros resources. unfold resources, buildResources, SearchResources.applyFilter.
  rewrite project_not_all, env_not_all, env_not_project, !startsWith_append,
    !replace_prefix.
  split; [|split].
  - rewrite !List.filter_app, !filter_map. cbn [applicationItem serviceItem
      databaseItem ResourceItem.environmentId default from_option id].
    by rewrite <- !filter_bool_decide.
  - intros ids ->. rewrite !List.filter_app, !filter_map.
    cbn [applicationItem serviceItem databaseItem ResourceItem.environmentId
           default from_option id].
    by rewrite <- !filter_bool_decide.
  - by intros ->.
Qed.

Lemma unified_selectors_resolve_id_then_uuid_witness :
  let database := Examples.dbWith Undefined (Some "e1") in
  let envs := [Examples.staging] in
  SearchResources.applyFilter (buildResources [] [] [database]) "env:staging"
    (buildEnvToProjectMap envs) (buildEnvNameToIdsMap envs)
  = buildResources [] [] [database].
Proof.
  intros database envs.
  destruct (unified_selectors_resolve_id_then_uuid [] [] [database] "1" "staging"
              (buildEnvToProjectMap envs) (buildEnvNameToIdsMap envs))
    as (_ & H & _).
  etransitivity; [exact (H (idsOf "staging" envs) eq_refl)|reflexivity].
Defined.

(** X9. What a list of one type shows under a project or environment
    selector, the unified list shows too under the same selector, with the
    maps that the builders produce: a database or an application that the
    list of its type keeps has its item kept in the unified list. *)
Theorem per_type_lists_within_unified_list
    (envs : list ProjectEnvironment.t)
    (apps : list Application.t) (services : list Service.t)
    (databases : list Database.t) (selector name : string) :
  let envToProjectMap := buildEnvToProjectMap envs in
  let envNameToIds := buildEnvNameToIdsMap envs in
  let resources := buildResources apps services databases in
  selector = "project:" +:+ name \/ selector = "env:" +:+ name ->
  (forall database,
     In database (SearchDatabases.applyFilter databases selector
                    envToProjectMap envNameToIds) ->
     In (databaseItem database)
        (SearchResources.applyFilter resources selector envToProjectMap
           envNameToIds))
  /\ (forall app,
        In app (SearchApplications.applyFilter apps selector envToProjectMap
                  true envNameToIds) ->
        In (applicationItem app)
           (SearchResources.applyFilter resources selector envToProjectMap
              envNameToIds)).
Proof.
  intros envToProjectMap envNameToIds resources Hsel.
  assert (Hdb : forall database k,
             String_ (Database.environment_id database ?? Str "") = k ->
             k <> "" -> databaseKey database = k).
  { intros database k <- Hk. unfold databaseKey, coalesce in *.
    by destruct (nullish (Database.environment_id database)). }
  assert (Happ : forall app k,
             String_ (Application.environment_id app ?? Str "") = k ->
             k <> "" -> applicationKey app = k).
  { intros app k <- Hk. unfold applicationKey, coalesce in *.
    by destruct (nullish (Application.environment_id app)). }
  destruct (unified_selectors_resolve_id_then_uuid apps services databases
              name name envToProjectMap envNameToIds) as (Hp & He & Hn).
  fold resources in Hp, He, Hn.
  destruct Hsel as [-> | ->].
  - rewrite Hp. unfold buildResources. split.
    + intros database. unfold SearchDatabases.applyFilter.
      rewrite project_not_all, project_not_env, startsWith_append, replace_prefix.
      intros [Hin H%bool_decide_eq_true]%filter_In.
      rewrite !in_app_iff. right. right. apply in_map.
      apply list_elem_of_In, list_elem_of_filter. split; [|by apply list_elem_of_In].
      rewrite (Hdb database _ eq_refl); [done|]. intros E. rewrite E in H.
      unfold envToProjectMap in H.
      by rewrite buildEnvToProjectMap_no_empty_key in H.
    + intros app. unfold SearchApplications.applyFilter.
      rewrite project_not_all, project_not_env, startsWith_append, replace_prefix.
      cbn [negb]. intros [Hin H%bool_decide_eq_true]%filter_In.
      rewrite !in_app_iff. left. apply in_map.
      apply list_elem_of_In, list_elem_of_filter. split; [|by apply list_elem_of_In].
      rewrite (Happ app _ eq_refl); [done|]. intros E. rewrite E in H.
      unfold envToProjectMap in H.
      by rewrite buildEnvToProjectMap_no_empty_key in H.
  - split.
    + intros database. unfold SearchDatabases.applyFilter.
      rewrite env_not_all, startsWith_append, replace_prefix.
      destruct (envNameToIds !! name) as [ids|] eqn:E; [|by intros []].
      rewrite (He ids eq_refl). unfold buildResources.
      intros [Hin H%bool_decide_eq_true]%filter_In.
      rewrite !in_app_iff. right. right. apply in_map.
      apply list_elem_of_In, list_elem_of_filter. split; [|by apply list_elem_of_In].
      rewrite (Hdb database _ eq_refl); [done|]. intros E'. rewrite E' in H.
      by apply buildEnvNameToIdsMap_no_empty_key in E.
    + intros app. unfold SearchApplications.applyFilter.
      rewrite env_not_all, startsWith_append, replace_prefix.
      destruct (envNameToIds !! name) as [ids|] eqn:E; [|by intros []].
      rewrite (He ids eq_refl). unfold buildResources.
      intros [Hin H%bool_decide_eq_true]%filter_In.
      rewrite !in_app_iff. left. apply in_map.
      apply list_elem_of_In, list_elem_of_filter. split; [|by apply list_elem_of_In].
      rewrite (Happ app _ eq_refl); [done|]. intros E'. rewrite E' in H.
      by apply buildEnvNameToIdsMap_no_empty_key in E.
Qed.

End unified.

Section unified_witnesses.
Import JS Filters Folds Resources Examples.

(** The application [web] of environment 10, under the project of which
    [staging] is an environment. *)
Lemma per_type_lists_within_unified_list_witness :
  let envs := [staging] in
  In web (SearchApplications.applyFilter [web] "project:1"
            (buildEnvToProjectMap envs) true (buildEnvNameToIdsMap envs))
  /\ In (applicationItem web)
       (SearchResources.applyFilter (buildResources [web] [] []) "project:1"
          (buildEnvToProjectMap envs) (buildEnvNameToIdsMap envs)).
Proof.
  intros envs.
  assert (Hin : In web (SearchApplications.applyFilter [web] "project:1"
                          (buildEnvToProjectMap envs) true
                          (buildEnvNameToIdsMap envs)))
    by (left; reflexivity).
  split; [exact Hin|].
  destruct (per_type_lists_within_unified_list envs [web] [] [] "project:1" "1")
    as [_ H]; [by left|].
  by apply H.
Defined.

End unified_witnesses.

(** ** What a selector may return, and the search text *)

Section search.
Import JS Filters Resources.

(** Decides the tests of [applyFilter] one after the other. *)
Ltac branches :=
  repeat match goal with
         | |- context [if ?b then _ else _] => destruct b
         | |- context [match ?m !! ?k with _ => _ end] => destruct (m !! k)
         end;
  first [reflexivity | apply sublist_nil_l | apply sublist_filter].

(** X10. Whatever the selector, known or not, [applyFilter] returns a sublist
    of the items it was given: it never adds, repeats or reorders items.
    This holds for its five variants. *)
Theorem applyFilter_sublist (filterValue : string)
    (envToProjectMap appIdToEnvId : gmap string string)
    (envNameToIds : gmap string (gset string)) (hasEnvMapping : bool) :
  (forall items,
     sublist (SearchResources.applyFilter items filterValue envToProjectMap
                envNameToIds) items)
  /\ (forall items,
        sublist (SearchApplications.applyFilter items filterValue
                   envToProjectMap hasEnvMapping envNameToIds) items)
  /\ (forall items,
        sublist (SearchServices.applyFilter items filterValue envToProjectMap
                   envNameToIds) items)
  /\ (forall items,
        sublist (SearchDatabases.applyFilter items filterValue envToProjectMap
                   envNameToIds) items)
  /\ (forall items,
        sublist (SearchDeployments.applyFilter items filterValue
                   envToProjectMap envNameToIds appIdToEnvId) items).
Proof.
  repeat split; intros items.
  - unfold SearchResources.applyFilter. branches.
  - unfold SearchApplications.applyFilter. branches.
  - unfold SearchServices.applyFilter. branches.
  - unfold SearchDatabases.applyFilter. branches.
  - unfold SearchDeployments.applyFilter. branches.
Qed.

Lemma join_cons (sep part : string) (parts : list string) :
  exists rest, join sep (part :: parts) = part +:+ rest.
Proof.
  destruct parts as [|p parts].
  - exists "". cbn. by rewrite append_nil_r.
  - by eexists.
Qed.

Lemma filterBoolean_cons (s : string) (rest : list (option string)) :
  s <> "" -> filterBoolean (Some s :: rest) = s :: filterBoolean rest.
Proof. intros H. cbn [filterBoolean]. by destruct (String.eqb_spec s ""). Qed.

(** X11. A search text that is empty or blank leaves the selected resources
    as they are; any other search text keeps a sublist of them. *)
Theorem search_keeps_sublist (resources : list ResourceItem.t)
    (filterValue searchText : string)
    (envToProjectMap : gmap string string)
    (envNameToIds : gmap string (gset string)) :
  sublist
    (SearchResources.filteredResources resources filterValue searchText
       envToProjectMap envNameToIds)
    (SearchResources.applyFilter resources filterValue envToProjectMap
       envNameToIds)
  /\ (allChars isWhiteSpace searchText = true ->
      SearchResources.filteredResources resources filterValue searchText
        envToProjectMap envNameToIds
      = SearchResources.applyFilter resources filterValue envToProjectMap
          envNameToIds).
Proof.
  unfold SearchResources.filteredResources. split.
  - destruct (String.eqb _ ""); [reflexivity|apply sublist_filter].
  - intros H%trim_blank. by rewrite H.
Qed.

(** X12. Searching for the name of a selected resource keeps this resource,
    whatever the case of the letters typed and the white space around
    them. *)
Theorem search_finds_by_name (resources : list ResourceItem.t)
    (filterValue searchText : string)
    (envToProjectMap : gmap string string)
    (envNameToIds : gmap string (gset string)) (item : ResourceItem.t) :
  In item (SearchResources.applyFilter resources filterValue envToProjectMap
             envNameToIds) ->
  toLowerCase (trim searchText) = toLowerCase (trim (ResourceItem.name item)) ->
  In item (SearchResources.filteredResources resources filterValue searchText
             envToProjectMap envNameToIds).
Proof.
  intros Hin Htext. unfold SearchResources.filteredResources. cbv zeta.
  destruct (String.eqb_spec (toLowerCase (trim searchText)) "") as [E|E];
    [done|].
  apply filter_In. split; [done|]. rewrite Htext in E |- *.
  assert (Hname : ResourceItem.name item <> "").
  { intros Hn. rewrite Hn in E. by apply E. }
  rewrite filterBoolean_cons by done.
  destruct (join_cons " " (ResourceItem.name item)
              (filterBoolean
                 [ResourceItem.subtitle item; ResourceItem.repo item;
                  ResourceItem.kind item;
                  Some (ResourceType.tag (ResourceItem.type item))]))
    as [rest ->].
  destruct (trim_decompose (ResourceItem.name item)) as (pre & post & Hn & _).
  rewrite Hn at 1. rewrite !toLowerCase_append, !append_assoc.
  apply includes_middle.
Qed.

End search.

Section search_witnesses.
Import JS Filters Resources Examples.

(** The application [web] is found by typing its name in capitals. *)
Lemma search_finds_by_name_witness :
  In (applicationItem web)
     (SearchResources.filteredResources (buildResources [web] [] []) "all"
        " WEB " ∅ ∅).
Proof.
  apply (search_finds_by_name (buildResources [web] [] []) "all" " WEB " ∅ ∅
           (applicationItem web)); [by left|reflexivity].
Defined.

End search_witnesses.

(** ** Grouping by project *)

Section grouping.
Import JS Grouping Notions.

Lemma has_In (key : string) (groups : list (string * ResourceGroup.t)) :
  has key groups = true <-> In key (map fst groups).
Proof.
  unfold has. rewrite existsb_exists, in_map_iff. split.
  - intros (b & Hb & E%String.eqb_eq). by exists b.
  - intros (b & E & Hb). exists b. split; [done|]. by apply String.eqb_eq.
Qed.

Lemma pushTo_fst (key : string) (entry : ResourceEntry.t)
    (groups : list (string * ResourceGroup.t)) :
  map fst (pushTo key entry groups) = map fst groups.
Proof.
  induction groups as [|[k g] groups IH]; [done|]. cbn [pushTo].
  destruct (String.eqb k key); cbn; [done|]. by rewrite IH.
Qed.

Lemma pushTo_app (key : string) (entry : ResourceEntry.t)
    (groups rest : list (string * ResourceGroup.t)) :
  ~ In key (map fst groups) ->
  pushTo key entry (groups ++ rest) = (groups ++ pushTo key entry rest)%list.
Proof.
  induction groups as [|[k g] groups IH]; [done|]. intros H. cbn.
  destruct (String.eqb_spec k key) as [->|_]; [destruct H; by left|].
  rewrite IH; [done|]. intros Hin. apply H. by right.
Qed.

Lemma pushTo_In (key : string) (entry : ResourceEntry.t)
    (groups : list (string * ResourceGroup.t)) (k : string)
    (g' : ResourceGroup.t) :
  NoDup (map fst groups) ->
  In (k, g') (pushTo key entry groups) ->
  (k <> key /\ In (k, g') groups)
  \/ (k = key
      /\ exists g, In (key, g) groups
                   /\ g' = {| ResourceGroup.projectName := ResourceGroup.projectName g;
                              ResourceGroup.items :=
                                (ResourceGroup.items g ++ [entry])%list |}).
Proof.
  induction groups as [|[k0 g0] groups IH]; [done|].
  cbn [map fst]. intros [Hk0 Hnd]%NoDup_cons. cbn [pushTo].
  destruct (String.eqb_spec k0 key) as [->|Hne].
  - intros [[= <- <-]|Hin].
    + right. split; [done|]. exists g0. split; [by left|done].
    + left. split; [|by right]. intros ->. apply Hk0.
      apply list_elem_of_In, in_map_iff. by exists (key, g').
  - intros [[= <- <-]|Hin].
    + left. split; [done|by left].
    + destruct (IH Hnd Hin) as [[? ?]|(-> & g & Hg & ->)].
      * left. split; [done|by right].
      * right. split; [done|]. exists g. split; [by right|done].
Qed.

Lemma entriesOf_snoc (k : string) (entries : list ResourceEntry.t)
    (entry : ResourceEntry.t) :
  entriesOf k (entries ++ [entry])
  = (entriesOf k entries
     ++ if String.eqb (ResourceEntry.projectName entry) k then [entry] else [])%list.
Proof.
  unfold entriesOf. rewrite List.filter_app. cbn.
  by destruct (String.eqb (ResourceEntry.projectName entry) k).
Qed.

Lemma grouped_step (entries : list ResourceEntry.t)
    (groups : list (string * ResourceGroup.t)) (entry : ResourceEntry.t) :
  grouped entries groups ->
  grouped (entries ++ [entry]) (groupStep groups entry).
Proof.
  intros (Hnd & Hgroups & Hentries). unfold groupStep. cbv zeta.
  set (key := ResourceEntry.projectName entry).
  destruct (has key groups) eqn:Hhas; cbn [negb].
  - apply has_In in Hhas. split; [|split].
    + by rewrite pushTo_fst.
    + intros k g' Hin. rewrite entriesOf_snoc. fold key.
      destruct (pushTo_In _ _ _ _ _ Hnd Hin) as [[Hne Hg]|(-> & g & Hg & ->)].
      * destruct (Hgroups k g' Hg) as (? & ? & ?).
        destruct (String.eqb_spec key k) as [|_]; [congruence|].
        by rewrite app_nil_r.
      * destruct (Hgroups key g Hg) as (? & Hitems & ?). cbn.
        rewrite String.eqb_refl, Hitems. split; [done|]. split; [done|].
        by destruct (entriesOf key entries).
    + intros e [He|[<-|[]]]%in_app_iff; rewrite pushTo_fst; auto.
  - assert (Hkey : ~ In key (map fst groups)).
    { intros H%has_In. congruence. }
    rewrite pushTo_app by done. cbn [pushTo]. rewrite String.eqb_refl.
    cbn [ResourceGroup.projectName ResourceGroup.items app].
    split; [|split].
    + rewrite map_app. cbn. apply NoDup_app. split; [done|]. split.
      * intros k Hk [->|[]]%list_elem_of_In. apply Hkey. by apply list_elem_of_In.
      * apply NoDup_singleton.
    + intros k g' [Hg|[[= <- <-]|[]]]%in_app_iff; rewrite entriesOf_snoc; fold key.
      * destruct (Hgroups k g' Hg) as (? & ? & ?).
        destruct (String.eqb_spec key k) as [<-|_].
        { destruct Hkey. apply in_map_iff. by exists (key, g'). }
        by rewrite app_nil_r.
      * cbn. rewrite String.eqb_refl. split; [done|]. split; [|done].
        assert (Hnone : entriesOf key entries = []); [|by rewrite Hnone].
        apply filter_none. intros e He. apply String.eqb_neq. intros E.
        apply Hkey. rewrite <- E. by apply Hentries.
    + intros e [He|[<-|[]]]%in_app_iff; rewrite map_app, in_app_iff.
      * left. by apply Hentries.
      * right. by left.
Qed.

Lemma grouped_fold (entries : list ResourceEntry.t) :
  grouped entries (foldl groupStep [] entries).
Proof.
  induction entries as [|entry entries IH] using rev_ind.
  - split; [constructor|]. split; by intros.
  - rewrite foldl_app. cbn [foldl]. by apply grouped_step.
Qed.

(** X13. The grouping loop partitions the entries by project name: no two
    groups have the same name, every entry has its group, and a group holds
    exactly the entries of its project, in their order, and at least one. *)
Theorem groups_partition_entries (entries : list ResourceEntry.t) :
  NoDup (map ResourceGroup.projectName (groups entries))
  /\ (forall group, In group (groups entries) ->
        ResourceGroup.items group
        = entriesOf (ResourceGroup.projectName group) entries
        /\ ResourceGroup.items group <> [])
  /\ (forall entry, In entry entries ->
        exists group,
          In group (groups entries)
          /\ ResourceGroup.projectName group = ResourceEntry.projectName entry).
Proof.
  destruct (grouped_fold entries) as (Hnd & Hgroups & Hentries).
  change (groups entries) with (map snd (foldl groupStep [] entries)).
  set (bindings := foldl groupStep [] entries) in *.
  assert (Hnames : map ResourceGroup.projectName (map snd bindings)
                   = map fst bindings).
  { rewrite map_map. apply map_ext_in. intros [k g] Hin. cbn.
    by destruct (Hgroups k g Hin) as (? & _). }
  split; [by rewrite Hnames|]. split.
  - intros group ([k g] & <- & Hin)%in_map_iff. cbn [snd].
    destruct (Hgroups k g Hin) as (Hk & ? & ?). by rewrite Hk.
  - intros entry ([k g] & Hk & Hin)%Hentries%in_map_iff. cbn in Hk. subst k.
    exists g.
    split; [by apply (in_map snd _ (ResourceEntry.projectName entry, g))|].
    by destruct (Hgroups _ g Hin) as (? & _).
Qed.

End grouping.

(** ** Statuses of deployments *)

Section statuses.
Import JS SearchDeployments Notions.

Lemma lowerChar_idempotent (c : ascii) : lowerChar (lowerChar c) = lowerChar c.
Proof. destruct c as [[] [] [] [] [] [] [] []]; reflexivity. Qed.

Lemma lowerChar_class (c : ascii) :
  isWhiteSpace (lowerChar c) = isWhiteSpace c
  /\ isHyphen (lowerChar c) = isHyphen c.
Proof. destruct c as [[] [] [] [] [] [] [] []]; split; reflexivity. Qed.

Lemma toLowerCase_fixed (s : string) :
  allChars (fun c => Ascii.eqb (lowerChar c) c) s = true -> toLowerCase s = s.
Proof.
  induction s as [|c s IH]; [done|]. cbn. intros [Hc Hs]%andb_prop.
  apply Ascii.eqb_eq in Hc. by rewrite Hc, IH.
Qed.

Lemma toLowerCase_lower (s : string) :
  allChars (fun c => Ascii.eqb (lowerChar c) c) (toLowerCase s) = true.
Proof.
  induction s as [|c s IH]; [done|]. cbn.
  by rewrite lowerChar_idempotent, Ascii.eqb_refl, IH.
Qed.

(** Collapsing the runs of a class keeps what holds of every character and
    of the underscore. *)
Lemma collapseFrom_keeps (P q : ascii -> bool) (inRun : bool) (s : string) :
  P "_"%char = true -> allChars P s = true ->
  allChars P (collapseFrom q inRun s) = true.
Proof.
  intros Hu. revert inRun. induction s as [|c s IH]; intros inRun; [done|].
  cbn. intros [Hc Hs]%andb_prop.
  destruct (q c); [destruct inRun|]; cbn; rewrite ?Hu, ?Hc; cbn; by apply IH.
Qed.

Lemma collapseFrom_clears (q : ascii -> bool) (inRun : bool) (s : string) :
  q "_"%char = false ->
  allChars (fun c => negb (q c)) (collapseFrom q inRun s) = true.
Proof.
  intros Hu. revert inRun. induction s as [|c s IH]; intros inRun; [done|].
  cbn. destruct (q c) eqn:Hc; [destruct inRun|]; cbn; rewrite ?Hu, ?Hc; cbn;
    by apply IH.
Qed.

Lemma collapseFrom_id (q : ascii -> bool) (inRun : bool) (s : string) :
  allChars (fun c => negb (q c)) s = true -> collapseFrom q inRun s = s.
Proof.
  revert inRun. induction s as [|c s IH]; intros inRun; [done|].
  cbn. intros [Hc Hs]%andb_prop. apply negb_true_iff in Hc. rewrite Hc.
  by rewrite IH.
Qed.

Lemma allChars_and (P Q : ascii -> bool) (s : string) :
  allChars (fun c => P c && Q c) s = allChars P s && allChars Q s.
Proof.
  induction s as [|c s IH]; [done|]. cbn. rewrite IH.
  destruct (P c), (Q c), (allChars P s), (allChars Q s); reflexivity.
Qed.

Lemma normalizeStatus_chars (status : option string) :
  allChars (fun c => negb (isWhiteSpace c)) (normalizeStatus status) = true
  /\ allChars (fun c => negb (isHyphen c)) (normalizeStatus status) = true
  /\ allChars (fun c => Ascii.eqb (lowerChar c) c) (normalizeStatus status) = true.
Proof.
  unfold normalizeStatus, collapseRuns. split; [|split].
  - apply collapseFrom_keeps; [done|]. by apply collapseFrom_clears.
  - by apply collapseFrom_clears.
  - apply collapseFrom_keeps; [done|]. apply collapseFrom_keeps; [done|].
    apply toLowerCase_lower.
Qed.

(** X14. A normalised status holds no white space, no hyphen and no capital
    letter, and normalising it again changes nothing. *)
Theorem normalizeStatus_idempotent (status : option string) :
  allChars statusChar (normalizeStatus status) = true
  /\ normalizeStatus (Some (normalizeStatus status)) = normalizeStatus status.
Proof.
  destruct (normalizeStatus_chars status) as (Hw & Hh & Hl). split.
  - unfold statusChar. by rewrite !allChars_and, Hw, Hh, Hl.
  - unfold normalizeStatus at 1. cbn [default from_option id].
    rewrite toLowerCase_fixed by done. unfold collapseRuns.
    rewrite (collapseFrom_id isWhiteSpace) by done.
    by rewrite (collapseFrom_id isHyphen).
Qed.

(** X15. The selector ["status:active"] keeps, among the deployments given,
    those whose normalised status is one of the six active ones; each of
    them is drawn with a green, blue or yellow dot, never a red or a grey
    one. *)
Theorem active_deployments_have_active_dots
    (items : list Deployment.t) (item : Deployment.t)
    (envToProjectMap appIdToEnvId : gmap string string)
    (envNameToIds : gmap string (gset string)) :
  In item (applyFilter items "status:active" envToProjectMap envNameToIds
             appIdToEnvId)
  <-> In item items
      /\ In (normalizeStatus (Deployment.status item))
           ["running"; "queued"; "pending"; "in_progress"; "deploying"; "building"]
      /\ In (tintColor (statusIcon (Deployment.status item)))
           [Green; Blue; Yellow].
Proof.
  unfold applyFilter. cbn [String.eqb Ascii.eqb Bool.eqb andb].
  rewrite filter_In, bool_decide_eq_true. unfold ACTIVE_STATUSES.
  rewrite elem_of_list_to_set.
  split; [|intros (? & ? & _); split; [done|by apply list_elem_of_In]].
  intros [Hin Hs%list_elem_of_In]. split; [done|]. split; [done|].
  unfold statusIcon.
  destruct Hs as [<-|[<-|[<-|[<-|[<-|[<-|[]]]]]]]; cbn; auto.
Qed.

End statuses.

(** ** URLs of applications and deployments *)

Section more_urls.
Import JS SearchDeployments Notions.

Lemma isHttp_trimmed (raw : string) :
  raw <> "" -> trim raw = raw ->
  trim ("https://" +:+ raw) = "https://" +:+ raw.
Proof.
  intros Hne Hraw. apply trim_id. intros c [H|H].
  - by injection H as <-.
  - rewrite lastChar_append in H by done. apply (trim_ends raw).
    right. by rewrite Hraw.
Qed.

(** X16. The primary URL of an application, when there is one, is an
    [http://] or [https://] URL without white space around it, and
    [normalizeUrl] leaves it as it is. *)
Theorem getPrimaryUrl_is_http (app : Application.t) (url : string) :
  Resources.getPrimaryUrl app = Some url ->
  isHttp url = true
  /\ trim url = url
  /\ normalizeUrl (Some url) = Some url.
Proof.
  intros H.
  destruct (Application.fqdn app) as [f|] eqn:Ef;
    [|by unfold Resources.getPrimaryUrl in H; rewrite Ef in H].
  rewrite (getPrimaryUrl_unfold app f Ef) in H. cbv zeta in H.
  assert (Htrim : trim (trim (Spec.firstToken f)) = trim (Spec.firstToken f))
    by apply trim_idempotent.
  remember (trim (Spec.firstToken f)) as token eqn:Et. clear Et.
  destruct (String.eqb_spec token "") as [|Hne]; [done|].
  assert (Hnormal : forall u, u <> "" -> isHttp u = true ->
                              normalizeUrl (Some u) = Some u).
  { intros u Hu Hh. unfold normalizeUrl, whenTruthy, isHttp in *.
    destruct (String.eqb_spec u ""); [done|]. by rewrite Hh. }
  unfold isHttp in *.
  destruct (startsWith token "http://" || startsWith token "https://") eqn:Eh.
  - injection H as E. subst url. repeat split; auto.
  - injection H as E. subst url.
    assert (Hh : startsWith ("https://" +:+ token) "http://"
                 || startsWith ("https://" +:+ token) "https://" = true)
      by (by rewrite (startsWith_append "https://"), orb_true_r).
    split; [done|]. split; [by apply isHttp_trimmed|].
    apply Hnormal; [by destruct token|done].
Qed.

Lemma getPrimaryUrl_is_http_witness :
  isHttp "https://web.example.com" = true
  /\ trim "https://web.example.com" = "https://web.example.com".
Proof.
  destruct (getPrimaryUrl_is_http Examples.web "https://web.example.com")
    as (H1 & H2 & _); [reflexivity|]. by split.
Defined.

(** X17. [normalizeUrl] gives an [http://] or [https://] URL for every
    non-empty URL, nothing for an absent or empty one, and is idempotent. *)
Theorem normalizeUrl_idempotent (url : option string) :
  (Spec.missing url -> normalizeUrl url = None)
  /\ (Spec.present url ->
      exists normal, normalizeUrl url = Some normal /\ isHttp normal = true)
  /\ normalizeUrl (normalizeUrl url) = normalizeUrl url.
Proof.
  unfold normalizeUrl, whenTruthy, isHttp.
  destruct url as [[|c u]|]; cbn [String.eqb].
  - split; [done|]. split; [|done]. by intros (s & [= <-] & ?).
  - split; [by intros [[=]|[=]]|].
    destruct (startsWith (String c u) "http://"
              || startsWith (String c u) "https://") eqn:E.
    + split; [by eexists|]. cbn [String.eqb]. by rewrite E.
    + split; [by eexists|]. by cbn.
  - split; [done|]. split; [|done]. by intros (s & [=] & _).
Qed.

(** X18. When the instance URL, without its trailing slashes, is an
    [http://] or [https://] URL, so is every URL that [resolveDeployUrl]
    and [resolveLogsUrl] resolve against it. *)
Theorem resolved_urls_are_http (instanceUrl : string) :
  isHttp (stripTrailingSlashes instanceUrl) = true ->
  (forall url resolved,
     resolveDeployUrl url instanceUrl = Some resolved -> isHttp resolved = true)
  /\ (forall value resolved,
        resolveLogsUrl value instanceUrl = Some resolved ->
        isHttp resolved = true).
Proof.
  intros Hbase.
  assert (Happ : forall rest,
             isHttp (stripTrailingSlashes instanceUrl +:+ rest) = true).
  { intros rest. unfold isHttp, startsWith in *.
    apply orb_prop in Hbase as [H|H]; rewrite (prefix_weaken _ _ _ H);
      by rewrite ?orb_true_r. }
  assert (Hdeploy : forall url resolved,
             resolveDeployUrl url instanceUrl = Some resolved ->
             isHttp resolved = true).
  { intros url resolved. unfold resolveDeployUrl, whenTruthy.
    destruct url as [u|]; [|done]. destruct (String.eqb_spec u ""); [done|].
    destruct (startsWith u "http://" || startsWith u "https://") eqn:E.
    - by intros [= <-].
    - destruct (startsWith u "/"); [by intros [= <-]|].
      destruct (startsWith u "project/"); [by intros [= <-]|].
      unfold normalizeUrl, whenTruthy.
      destruct (String.eqb_spec u ""); [done|]. rewrite E. intros [= <-].
      unfold isHttp. by rewrite (startsWith_append "https://"), orb_true_r. }
  split; [exact Hdeploy|].
  intros value resolved. unfold resolveLogsUrl.
  destruct value; try done. destruct (String.eqb (trim s) ""); [done|].
  apply Hdeploy.
Qed.

Lemma resolved_urls_are_http_witness :
  resolveDeployUrl (Some "/project/p1") "https://instance//"
  = Some "https://instance/project/p1"
  /\ isHttp "https://instance/project/p1" = true.
Proof.
  split; [reflexivity|].
  destruct (resolved_urls_are_http "https://instance//") as [H _];
    [reflexivity|].
  by apply (H (Some "/project/p1")).
Defined.

End more_urls.

(** ** The environment of a deployment *)

Section deployment_env.
Import JS Filters SearchDeployments Notions.

Lemma appIdToEnvId_fold (applications : list Application.t) :
  appIdToEnvId applications = foldl appStep ∅ applications.
Proof. reflexivity. Qed.

Lemma appStep_self (m : gmap string string) (app : Application.t) (k : string) :
  appKey app k -> appStep m app !! k = Some (applicationEnv app).
Proof.
  intros [Henv Hk]. unfold appStep. cbv zeta.
  destruct (String.eqb_spec (applicationEnv app) "") as [|_]; [done|].
  rewrite !andb_true_r. unfold truthy, interp.
  destruct Hk as [[Hid ->]|[Hk Hu]].
  - destruct (Application.uuid app) as [u|]; cbn [of_str String_].
    + destruct (String.eqb u ""); cbn [negb].
      * destruct (Application.id app); try done; apply lookup_insert_eq.
      * destruct (decide (u = String_ (Application.id app))) as [->|Hne].
        { apply lookup_insert_eq. }
        rewrite lookup_insert_ne by done.
        destruct (Application.id app); try done; apply lookup_insert_eq.
    + destruct (Application.id app); try done; apply lookup_insert_eq.
  - rewrite Hu. cbn [of_str String_].
    destruct (String.eqb_spec k ""); [done|]. cbn [negb].
    apply lookup_insert_eq.
Qed.

Lemma appStep_other (m : gmap string string) (app : Application.t) (k : string) :
  ~ appKey app k -> appStep m app !! k = m !! k.
Proof.
  intros Hk. unfold appStep. cbv zeta.
  destruct (String.eqb_spec (applicationEnv app) "") as [|Henv].
  - by rewrite !andb_false_r.
  - rewrite !andb_true_r.
    assert (Hid : Application.id app <> Undefined ->
                  k <> String_ (Application.id app)).
    { intros Hid ->. apply Hk. split; [done|]. by left. }
    assert (Hu : forall u, Application.uuid app = Some u -> u <> "" -> k <> u).
    { intros u Eu Hne ->. apply Hk. split; [done|]. by right. }
    unfold truthy, interp.
    destruct (Application.uuid app) as [u|]; cbn [of_str String_].
    + destruct (String.eqb_spec u "") as [|Hne]; cbn [negb].
      * destruct (Application.id app) eqn:Ei; try done;
          rewrite lookup_insert_ne; try done; intros E; by apply Hid.
      * rewrite lookup_insert_ne by (intros E; by apply (Hu u)).
        destruct (Application.id app) eqn:Ei; try done;
          rewrite lookup_insert_ne; try done; intros E; by apply Hid.
    + destruct (Application.id app) eqn:Ei; try done;
        rewrite lookup_insert_ne; try done; intros E; by apply Hid.
Qed.

Lemma appFold_other (apps : list Application.t) (m : gmap string string)
    (k : string) :
  (forall app, In app apps -> ~ appKey app k) ->
  foldl appStep m apps !! k = m !! k.
Proof.
  revert m. induction apps as [|app apps IH]; intros m H; [done|]. cbn.
  rewrite IH by (intros a Ha; apply H; by right).
  apply appStep_other. apply H. by left.
Qed.

(** X19. A deployment is attributed to the environment of its application:
    when the application key of the deployment is a key of an application
    of the list, and of no later one, [resolveEnvId] is the normalised
    environment of this application, whatever environment the deployment
    itself names.  When no application has this key, it is the normalised
    environment that the deployment names, or the empty string. *)
Theorem resolveEnvId_prefers_application
    (pre post : list Application.t) (app : Application.t)
    (deployment : Deployment.t) :
  let applications := (pre ++ app :: post)%list in
  let appKey_ := resolveAppKey deployment in
  (appKey app appKey_ ->
   (forall later, In later post -> ~ appKey later appKey_) ->
   resolveEnvId deployment (appIdToEnvId applications) appKey_
   = applicationEnv app)
  /\ ((forall known, In known applications -> ~ appKey known appKey_) ->
      resolveEnvId deployment (appIdToEnvId applications) appKey_
      = default ""
          (toId (Deployment.environment_id deployment
                 ?? of_str (Deployment.environment_uuid deployment)))).
Proof.
  intros applications key. split.
  - intros Hk Hpost. unfold resolveEnvId. cbv zeta.
    unfold applications. rewrite appIdToEnvId_fold, foldl_app. cbn [foldl].
    rewrite appFold_other by done. rewrite appStep_self by done.
    cbn [whenTruthy]. destruct Hk as [Henv _].
    by destruct (String.eqb_spec (applicationEnv app) "").
  - intros Hnone. unfold resolveEnvId. cbv zeta.
    rewrite appIdToEnvId_fold, appFold_other by done. by rewrite lookup_empty.
Qed.

End deployment_env.

Section deployment_env_witnesses.
Import JS Filters SearchDeployments Notions Examples.

(** A deployment of the application [web] that names environment 99 is
    attributed to environment 10, that of [web]. *)
Lemma resolveEnvId_prefers_application_witness :
  let deployment := deploymentOf (Some "a1") (Num 99) None in
  resolveEnvId deployment (appIdToEnvId [web]) (resolveAppKey deployment) = "10".
Proof.
  intros deployment.
  destruct (resolveEnvId_prefers_application [] [] web deployment) as [H _].
  apply H.
  - split; [done|]. right. by split.
  - by intros later [].
Defined.

End deployment_env_witnesses.

(** ** The applications whose deployments are asked for *)

Section app_uuids.
Import JS Filters SearchDeployments Notions.

Lemma filterBoolean_In (values : list (option string)) (s : string) :
  In s (filterBoolean values) <-> s <> "" /\ In (Some s) values.
Proof.
  induction values as [|[v|] values IH]; cbn [filterBoolean].
  - split; [done|]. by intros [_ []].
  - destruct (String.eqb_spec v "") as [->|Hv].
    + rewrite IH. split; [intros [? ?]; split; [done|by right]|].
      intros [Hs [[= <-]|H]]; [done|by split].
    + cbn [In]. rewrite IH. split.
      * intros [<-|[? ?]]; split; auto.
      * intros [Hs [[= <-]|H]]; auto.
  - rewrite IH. split; [intros [? ?]; split; [done|by right]|].
    intros [Hs [[=]|H]]. by split.
Qed.

Lemma filterBoolean_length (values : list (option string)) :
  length (filterBoolean values) <= length values.
Proof.
  induction values as [|[v|] values IH]; cbn; [lia| |lia].
  destruct (String.eqb v ""); cbn; lia.
Qed.

Lemma project_env_ids (envToProjectMap : gmap string string) (p k : string) :
  k ∈ (list_to_set
         (map fst
            (List.filter (fun entry => String.eqb (snd entry) p)
               (map_to_list envToProjectMap))) : gset string)
  <-> envToProjectMap !! k = Some p.
Proof.
  rewrite elem_of_list_to_set, list_elem_of_In, in_map_iff. split.
  - intros ([k' v] & <- & [Hin Hv%String.eqb_eq]%filter_In). cbn in *. subst v.
    by apply elem_of_map_to_list, list_elem_of_In.
  - intros H. exists (k, p). split; [done|]. apply filter_In. split.
    + by apply list_elem_of_In, elem_of_map_to_list.
    + apply String.eqb_refl.
Qed.

Lemma filter_ext_in_bool {A : Type} (f g : A -> bool) (l : list A) :
  (forall x, f x = g x) -> List.filter f l = List.filter g l.
Proof. intros H. induction l as [|x l IH]; [done|]. cbn. by rewrite H, IH. Qed.

(** X20. The deployments are asked for applications of the list only, by
    their non-empty uuids.  Under a selector ["project:<id>"] these are the
    applications whose environment ([environment_id], or else
    [environment_uuid]) belongs to the project; without a project or
    environment selector they are among the first twenty applications. *)
Theorem filteredAppUuids_bounds (applications : list Application.t)
    (filterValue p : string) (envToProjectMap : gmap string string)
    (envNameToIds : gmap string (gset string)) :
  (forall uuid,
     In uuid (filteredAppUuids applications filterValue envToProjectMap
                envNameToIds) ->
     uuid <> ""
     /\ exists app, In app applications /\ Application.uuid app = Some uuid)
  /\ filteredAppUuids applications ("project:" +:+ p) envToProjectMap
       envNameToIds
     = filterBoolean
         (map Application.uuid
            (filter (fun app => envToProjectMap !! applicationKey app = Some p)
               applications))
  /\ (startsWith filterValue "project:" = false ->
      startsWith filterValue "env:" = false ->
      length (filteredAppUuids applications filterValue envToProjectMap
                envNameToIds) <= 20).
Proof.
  split; [|split].
  - intros uuid. unfold filteredAppUuids. cbv zeta.
    assert (H : forall apps : list Application.t,
               (forall app, In app apps -> In app applications) ->
               In uuid (filterBoolean (map Application.uuid apps)) ->
               uuid <> ""
               /\ exists app, In app applications
                              /\ Application.uuid app = Some uuid).
    { intros apps Hsub [Hne (app & Hu & Hin)%in_map_iff]%filterBoolean_In.
      split; [done|]. exists app. auto. }
    destruct (Nat.eqb (length applications) 0); [by intros []|].
    destruct (startsWith filterValue "project:").
    { apply H. by intros app [? _]%filter_In. }
    destruct (startsWith filterValue "env:").
    { destruct (envNameToIds !! _); [|by intros []].
      apply H. by intros app [? _]%filter_In. }
    apply H. intros app Hin. rewrite <- (firstn_skipn 20 applications).
    apply in_app_iff. by left.
  - unfold filteredAppUuids. cbv zeta.
    rewrite startsWith_append, replace_prefix.
    destruct applications as [|app apps]; [done|]. cbn [length Nat.eqb].
    rewrite <- filter_bool_decide. do 2 f_equal.
    apply filter_ext_in_bool. intros a. apply bool_decide_ext.
    apply project_env_ids.
  - intros Hp He. unfold filteredAppUuids. cbv zeta. rewrite Hp, He.
    destruct (Nat.eqb (length applications) 0); [cbn; lia|].
    etransitivity; [apply filterBoolean_length|].
    rewrite length_map, length_firstn. lia.
Qed.

End app_uuids.

(** ** The resources of one environment *)

Section environment_resources.
Import JS Filters Notions.

(** X21. The list of one environment is empty when neither the id nor the
    uuid given for the environment normalises to something.  Otherwise it
    keeps the resources whose normalised environment id is the normalised
    id or the normalised uuid of the environment: both sides are
    normalised, and a resource without environment is never kept. *)
Theorem environment_resources_match_normalised
    (environmentId environmentUuid : option string)
    (resources : list ResourceItem.t) (item : ResourceItem.t) :
  In item (EnvironmentResources.filteredResources environmentId
             environmentUuid resources)
  <-> In item resources
      /\ exists k,
           toId (of_str (ResourceItem.environmentId item)) = Some k
           /\ (toId (of_str environmentId) = Some k
               \/ toId (of_str environmentUuid) = Some k).
Proof.
  unfold EnvironmentResources.filteredResources. cbv zeta.
  set (envId := toId (of_str environmentId)).
  set (envUuid := toId (of_str environmentUuid)).
  assert (Hkeys : forall k,
             k ∈ (list_to_set (filterBoolean [envId; envUuid]) : gset string)
             <-> k <> "" /\ (envId = Some k \/ envUuid = Some k)).
  { intros k. rewrite elem_of_list_to_set, list_elem_of_In, filterBoolean_In.
    cbn [In]. naive_solver. }
  destruct (Nat.eqb (size _) 0) eqn:Esize.
  - apply size_zero_iff in Esize. split; [by intros []|].
    intros (_ & k & Hk & Hor).
    assert (Hin : k ∈ (list_to_set (filterBoolean [envId; envUuid]) : gset string)).
    { apply Hkeys. split; [|done]. intros ->. by apply toId_nonempty in Hk. }
    rewrite Esize in Hin. set_solver.
  - rewrite filter_In, bool_decide_eq_true, Hkeys. split.
    + intros (Hin & Hne & Hor). split; [done|].
      destruct (toId (of_str (ResourceItem.environmentId item))) as [k|];
        [|done]. by exists k.
    + intros (Hin & k & -> & Hor). split; [done|]. cbn. split; [|done].
      intros ->. destruct Hor as [H|H]; by apply toId_nonempty in H.
Qed.

End environment_resources.

(** ** Flattening, then building the maps *)

Section flatten_build.
Import JS Filters Folds Notions.

Lemma toId_fixed (v : idval) (s : string) :
  toId v = Some s -> toId (Str s) = Some s.
Proof.
  intros (-> & Hne & _)%toId_Some. unfold toId. cbn [nullish String_].
  rewrite trim_idempotent. by destruct (trim (String_ v)).
Qed.

Lemma environmentOf_enriched (project : Project.t) (environment : Environment.t) :
  environmentOf (enriched project environment) = environment.
Proof. by destruct environment. Qed.

(** X22. Flattening loses no environment and invents none: without the
    fields attached to them, the flattened records are the environments of
    the projects, project after project, in their order. *)
Theorem flattenEnvironments_round_trip (projects : list Project.t) :
  map environmentOf (flattenEnvironments projects)
  = flat_map (fun project => default [] (Project.environments project)) projects
  /\ length (flattenEnvironments projects)
     = list_sum
         (map (fun project => length (default [] (Project.environments project)))
            projects).
Proof.
  rewrite flattenEnvironments_flat_map. split.
  - induction projects as [|project projects IH]; [done|]. cbn [flat_map].
    rewrite map_app, IH, map_map. f_equal.
    rewrite <- (map_id (default [] _)) at 2. apply map_ext.
    apply environmentOf_enriched.
  - induction projects as [|project projects IH]; [done|]. cbn [flat_map map list_sum].
    by rewrite length_app, length_map, IH.
Qed.

Lemma enriched_projectOf (project : Project.t) (environment : Environment.t)
    (i : string) :
  ProjectEnvironment.projectId (enriched project environment) = Some i ->
  projectOf (enriched project environment) = Some i.
Proof.
  unfold projectOf. intros H. rewrite H. cbn [of_str coalesce nullish].
  cbn [enriched ProjectEnvironment.projectId] in H. unfold orElse in H.
  destruct (toId (Project.id project ?? of_str (Project.uuid project))) eqn:E1.
  - injection H as ->. by apply toId_fixed in E1.
  - destruct (toId (Environment.project_id environment
                    ?? of_str (Environment.project_uuid environment))) eqn:E2;
      [|done].
    injection H as ->. by apply toId_fixed in E2.
Qed.

(** X23. What [flattenEnvironments] attaches is what the maps give back: for
    a flattened environment that no later one shares a key with,
    [buildEnvToProjectMap] sends each of its keys to the [projectId]
    attached to it, and [buildEnvLookup] to the record itself. *)
Theorem flatten_then_build (projects : list Project.t)
    (pre post : list ProjectEnvironment.t) (out : ProjectEnvironment.t)
    (k i : string) :
  flattenEnvironments projects = (pre ++ out :: post)%list ->
  hasKey out k ->
  (forall later, In later post -> ~ hasKey later k) ->
  ProjectEnvironment.projectId out = Some i ->
  buildEnvToProjectMap (flattenEnvironments projects) !! k = Some i
  /\ buildEnvLookup (flattenEnvironments projects) !! k = Some out.
Proof.
  intros Hflat Hk Hpost Hi.
  assert (Hin : In out (flattenEnvironments projects))
    by (rewrite Hflat; apply in_elt).
  rewrite flattenEnvironments_flat_map in Hin.
  apply in_flat_map in Hin as (project & _ & (environment & <- & _)%in_map_iff).
  apply enriched_projectOf in Hi. rewrite Hflat.
  destruct (last_write_wins pre post _ k Hk Hpost) as (H1 & _ & H3). auto.
Qed.

End flatten_build.

Section flatten_build_witnesses.
Import JS Filters Folds Notions Examples.

Lemma flatten_then_build_witness :
  buildEnvToProjectMap (flattenEnvironments [demo]) !! "e1" = Some "1"
  /\ buildEnvLookup (flattenEnvironments [demo]) !! "e1"
     = Some (enriched demo production).
Proof.
  apply (flatten_then_build [demo] [] [] (enriched demo production) "e1" "1").
  - reflexivity.
  - right. reflexivity.
  - by intros later [].
  - reflexivity.
Defined.

End flatten_build_witnesses.

(** ** The four maps agree *)

Section maps_agree.
Import JS Filters Folds Notions.

Lemma lastWriter_ext {V W : Type}
    (f : ProjectEnvironment.t -> option V) (g : ProjectEnvironment.t -> option W)
    (k : string) (envs : list ProjectEnvironment.t) :
  (forall env, writes f env k = writes g env k) ->
  lastWriter f k envs = lastWriter g k envs.
Proof.
  intros H. induction envs as [|env envs IH]; [done|]. cbn. by rewrite IH, H.
Qed.

Lemma buildEnvLookup_Some (envs : list ProjectEnvironment.t) (k : string)
    (env : ProjectEnvironment.t) :
  buildEnvLookup envs !! k = Some env -> In env envs /\ hasKey env k.
Proof.
  rewrite buildEnvLookup_fold, kvFold_lookup.
  destruct (lastWriter Some k envs) as [w|] eqn:E; [|done]. intros [= ->].
  apply lastWriter_Some in E as [? [_ ?]%writes_true]. done.
Qed.

Lemma buildEnvLookup_is_Some (envs : list ProjectEnvironment.t) (k : string) :
  is_Some (buildEnvLookup envs !! k)
  <-> exists env, In env envs /\ hasKey env k.
Proof.
  split.
  - intros [env H%buildEnvLookup_Some]. by exists env.
  - intros (env & Hin & Hk). rewrite buildEnvLookup_fold.
    apply (written_is_Some Some envs env k Hin). apply writes_true. eauto.
Qed.

(** X24. The name that [buildEnvNameMap] gives for a key is the name of the
    record that [buildEnvLookup] gives for it; and the selector
    ["env:<name>"] made of this name selects the key, since
    [buildEnvNameToIdsMap] registers the key under this name. *)
Theorem names_agree_with_records (envs : list ProjectEnvironment.t) (k : string) :
  buildEnvNameMap envs !! k = nameOf <$> buildEnvLookup envs !! k
  /\ (forall n, buildEnvNameMap envs !! k = Some n ->
        exists ids, buildEnvNameToIdsMap envs !! n = Some ids /\ k ∈ ids).
Proof.
  assert (Hname : buildEnvNameMap envs !! k = nameOf <$> buildEnvLookup envs !! k).
  { rewrite buildEnvNameMap_fold, buildEnvLookup_fold, !kvFold_lookup.
    rewrite (lastWriter_ext _ Some) by done.
    by destruct (lastWriter Some k envs). }
  split; [done|]. intros n. rewrite Hname.
  destruct (buildEnvLookup envs !! k) as [env|] eqn:E; [|done].
  intros [= <-]. apply buildEnvLookup_Some in E as [Hin Hk].
  assert (Hids : k ∈ idsOf (nameOf env) envs).
  { apply idsOf_elem. by exists env. }
  exists (idsOf (nameOf env) envs). split; [|done].
  rewrite buildEnvNameToIdsMap_lookup. rewrite decide_False; [done|]. set_solver.
Qed.

(** X25. The four maps know the same keys, and only normalised ones: a key of
    [buildEnvToProjectMap] is a key of [buildEnvLookup]; the keys of
    [buildEnvNameMap] and the members of the sets of
    [buildEnvNameToIdsMap] are exactly the keys of [buildEnvLookup]; and
    every such key is its own normalised form, hence neither empty nor
    padded with white space. *)
Theorem maps_share_normalised_keys (envs : list ProjectEnvironment.t) (k : string) :
  (is_Some (buildEnvToProjectMap envs !! k) ->
   is_Some (buildEnvLookup envs !! k))
  /\ (is_Some (buildEnvNameMap envs !! k) <-> is_Some (buildEnvLookup envs !! k))
  /\ ((exists n ids, buildEnvNameToIdsMap envs !! n = Some ids /\ k ∈ ids)
      <-> is_Some (buildEnvLookup envs !! k))
  /\ (is_Some (buildEnvLookup envs !! k) -> toId (Str k) = Some k).
Proof.
  split; [|split; [|split]].
  - rewrite buildEnvToProjectMap_fold, kvFold_lookup.
    destruct (lastWriter projectOf k envs) as [w|] eqn:E; [|by intros [? ?]].
    intros _. apply lastWriter_Some in E as [Hin [_ Hk]%writes_true].
    apply buildEnvLookup_is_Some. by exists w.
  - rewrite buildEnvNameMap_fold, buildEnvLookup_fold, !kvFold_lookup.
    rewrite (lastWriter_ext _ Some) by done.
    destruct (lastWriter Some k envs); split; intros [? ?]; by eauto.
  - rewrite buildEnvLookup_is_Some. split.
    + intros (n & ids & Hn & Hk). rewrite buildEnvNameToIdsMap_lookup in Hn.
      case_decide; [done|]. injection Hn as <-.
      apply idsOf_elem in Hk as (env & ? & _ & ?). by exists env.
    + intros (env & Hin & Hk). exists (nameOf env), (idsOf (nameOf env) envs).
      assert (Hids : k ∈ idsOf (nameOf env) envs).
      { apply idsOf_elem. by exists env. }
      split; [|done]. rewrite buildEnvNameToIdsMap_lookup.
      rewrite decide_False; [done|]. set_solver.
  - intros (env & _ & [Hk|Hk])%buildEnvLookup_is_Some; by apply toId_fixed in Hk.
Qed.

End maps_agree.

(** ** Resources under their project *)

Section grouped_resources.
Import JS Grouping Notions.

(** X26. Every resource of the filtered list is listed in the group of the
    project name that [envLookup] gives for its environment id, and in the
    group ["Unassigned"] when its environment is unknown or has no project
    name. *)
Theorem resources_grouped_under_project
    (filteredResources : list ResourceItem.t)
    (envLookup : gmap string ProjectEnvironment.t)
    (envNameMap : gmap string string) (item : ResourceItem.t) :
  In item filteredResources ->
  exists group entry,
    In group (groups (entries filteredResources envLookup envNameMap))
    /\ In entry (ResourceGroup.items group)
    /\ ResourceEntry.item entry = item
    /\ ResourceGroup.projectName group
       = default "Unassigned"
           (envLookup !! default "" (ResourceItem.environmentId item)
            ≫= ProjectEnvironment.projectName).
Proof.
  intros Hin.
  set (all := entries filteredResources envLookup envNameMap).
  set (entry :=
         {| ResourceEntry.item := item;
            ResourceEntry.projectName :=
              default "Unassigned"
                (envLookup !! default "" (ResourceItem.environmentId item)
                 ≫= ProjectEnvironment.projectName);
            ResourceEntry.envName :=
              default "Unknown"
                (envNameMap !! default "" (ResourceItem.environmentId item)) |}).
  assert (Hentry : In entry all).
  { unfold all, entries. apply in_map_iff. by exists item. }
  destruct (grouped_fold all) as (_ & Hgroups & Hentries).
  pose proof (Hentries entry Hentry) as Hkey. apply in_map_iff in Hkey.
  destruct Hkey as ([k g] & Hk & Hg). cbn in Hk. subst k.
  destruct (Hgroups _ g Hg) as (Hname & Hitems & _).
  exists g, entry. split; [|split; [|split]].
  - change (groups all) with (map snd (foldl groupStep [] all)).
    by apply (in_map snd _ (ResourceEntry.projectName entry, g)).
  - rewrite Hitems. unfold entriesOf. apply filter_In. split; [exact Hentry|].
    apply String.eqb_refl.
  - reflexivity.
  - exact Hname.
Qed.

End grouped_resources.

Section grouped_resources_witnesses.
Import JS Filters Resources Grouping Examples.

(** The application [web], of environment 10, when no environment is
    known. *)
Lemma resources_grouped_under_project_witness :
  exists group,
    In group (groups (entries [applicationItem web] ∅ ∅))
    /\ ResourceGroup.projectName group = "Unassigned".
Proof.
  destruct (resources_grouped_under_project [applicationItem web] ∅ ∅
              (applicationItem web)) as (group & entry & H1 & _ & _ & H4);
    [by left|].
  by exists group.
Defined.

End grouped_resources_witnesses.
